(** * digital-empire: region-weighted mesh decimation and Xcode file registration

    A shallow embedding of the two automation scripts of the repository:

    - [apps/portfolio/decimate.py]: per mesh object, the Y bounds, the face
      threshold, the Face/Body vertex classification and the two decimate
      modifier passes (module [Decimate]);
    - [apps/workout/add_files_to_xcode.py]: [add_files_to_project]
      (module [AddFilesToXcode]);
    - the rest of the two scripts: the command line, the scene and the
      export of [decimate.py] (module [DecimateScript]), [verify_build] and
      [main] of [add_files_to_xcode.py] (module [XcodeMain]).

    Blender and pbxproj are external: their operations are section
    variables.  Python floats are abstracted by the class [Decimate.Float],
    which has two instances: exact rational arithmetic ([Q]), in which the
    specification's arithmetic statements are read and proved, and IEEE
    binary64 ([spec_float] at precision 53), in which the concrete inputs
    are re-run with the rounding Python really performs. *)

From Stdlib Require Import List Bool Arith Lia ZArith QArith Qround Lqa Ascii String.
From Stdlib Require Import Floats.SpecFloat.
Import ListNotations.

(** Exceptions the modelled code can raise through Python builtins. *)
Inductive PyError : Type :=
| ValueError          (* min() / max() of an empty sequence *)
| ZeroDivisionError.  (* division by zero *)

(** A small error monad: [inl e] is an uncaught exception. *)
Definition raise {A : Type} (e : PyError) : PyError + A := inl e.
Definition ret {A : Type} (a : A) : PyError + A := inr a.
Definition bind {A B : Type} (m : PyError + A) (k : A -> PyError + B) : PyError + B :=
  match m with
  | inl e => inl e
  | inr a => k a
  end.

Declare Scope py_scope.
Delimit Scope py_scope with py.
Notation "x <- m ;; k" := (bind m (fun x => k))
  (at level 61, m at next level, right associativity) : py_scope.

(* ================================================================== *)
(** * apps/portfolio/decimate.py *)
(* ================================================================== *)

Module Decimate.

(** The float operations the script uses: [-], [*], the literal [1], and the
    comparisons [<] (inside [min]), [>] (inside [max]) and [>=]. *)
Class Float (F : Type) : Type := {
  fsub : F -> F -> F;
  fmul : F -> F -> F;
  fone : F;
  flt : F -> F -> bool;
  fgt : F -> F -> bool;
  fge : F -> F -> bool
}.

(** [mathutils.Vector], [bpy.types.MeshVertex], [bpy.types.Mesh]. *)
Record Vector (F : Type) : Type := mkVector { x : F; y : F; z : F }.
Arguments mkVector {F}.
Arguments x {F}.
Arguments y {F}.
Arguments z {F}.

Record MeshVertex (F : Type) : Type := mkMeshVertex { index : nat; co : Vector F }.
Arguments mkMeshVertex {F}.
Arguments index {F}.
Arguments co {F}.

(** A mesh stores its vertex positions in order; a polygon lists the
    indices of its corners. *)
Record Mesh (F : Type) : Type := mkMesh {
  positions : list (Vector F);
  polygons : list (list nat)
}.
Arguments mkMesh {F}.
Arguments positions {F}.
Arguments polygons {F}.

(** A vertex group: its name and the weights assigned to vertex indices. *)
Record VertexGroup (F : Type) : Type := mkVertexGroup {
  name : string;
  weights : list (nat * F)
}.
Arguments mkVertexGroup {F}.
Arguments name {F}.
Arguments weights {F}.

Inductive DecimateType : Type := COLLAPSE | UNSUBDIV | DISSOLVE.

Record DecimateModifier (F : Type) : Type := mkDecimateModifier {
  mod_name : string;
  decimate_type : DecimateType;
  ratio : F;
  vertex_group : string
}.
Arguments mkDecimateModifier {F}.
Arguments mod_name {F}.
Arguments decimate_type {F}.
Arguments ratio {F}.
Arguments vertex_group {F}.

(** [bpy.types.Object] of type 'MESH': its mesh data and vertex groups. *)
Record Object (F : Type) : Type := mkObject {
  data : Mesh F;
  vertex_groups : list (VertexGroup F)
}.
Arguments mkObject {F}.
Arguments data {F}.
Arguments vertex_groups {F}.

(** What lines 36-56 compute for one mesh. *)
Record Regions (F : Type) : Type := mkRegions {
  min_y : F;
  max_y : F;
  face_threshold : F;
  face_verts : list nat;
  body_verts : list nat
}.
Arguments mkRegions {F}.
Arguments min_y {F}.
Arguments max_y {F}.
Arguments face_threshold {F}.
Arguments face_verts {F}.
Arguments body_verts {F}.

Section Script.
Context {F : Type} {FF : Float F}.

(** [mesh.vertices]: the i-th vertex has [index] i. *)
Fixpoint vertices_from (i : nat) (ps : list (Vector F)) : list (MeshVertex F) :=
  match ps with
  | [] => []
  | p :: ps' => mkMeshVertex i p :: vertices_from (S i) ps'
  end.

Definition vertices (mesh : Mesh F) : list (MeshVertex F) :=
  vertices_from 0 (positions mesh).

(** Python's [min(iterable)] and [max(iterable)]: the first item is kept
    until a later one compares strictly below (above) it; an empty
    iterable raises ValueError. *)
Definition py_min (xs : list F) : PyError + F :=
  match xs with
  | [] => raise ValueError
  | a :: r => ret (fold_left (fun m b => if flt b m then b else m) r a)
  end.

Definition py_max (xs : list F) : PyError + F :=
  match xs with
  | [] => raise ValueError
  | a :: r => ret (fold_left (fun m b => if fgt b m then b else m) r a)
  end.

(** Lines 40-41. *)
Definition y_range (min_y max_y : F) : F := fsub max_y min_y.

Definition compute_face_threshold (min_y max_y face_cutoff_y : F) : F :=
  fsub max_y (fmul (y_range min_y max_y) (fsub fone face_cutoff_y)).

(** Lines 49-56: one iteration, then the loop over [verts]. *)
Definition classify_step (threshold : F) (acc : list nat * list nat)
    (v : MeshVertex F) : list nat * list nat :=
  if fge (y (co v)) threshold
  then (fst acc ++ [index v], snd acc)
  else (fst acc, snd acc ++ [index v]).

Definition classify (threshold : F) (verts : list (MeshVertex F))
    : list nat * list nat :=
  fold_left (classify_step threshold) verts ([], []).

(** Lines 36-56. *)
Definition find_regions (face_cutoff_y : F) (mesh : Mesh F)
    : PyError + Regions F :=
  (let verts := vertices mesh in
   lo <- py_min (map (fun v => y (co v)) verts) ;;
   hi <- py_max (map (fun v => y (co v)) verts) ;;
   let threshold := compute_face_threshold lo hi face_cutoff_y in
   let fb := classify threshold verts in
   ret (mkRegions lo hi threshold (fst fb) (snd fb)))%py.

(** [group.add(indices, 1.0, 'REPLACE')] on a fresh group. *)
Definition new_group (nm : string) (indices : list nat) : VertexGroup F :=
  mkVertexGroup nm (map (fun i => (i, fone)) indices).

(** Applying a decimate modifier is Blender's business. *)
Variable modifier_apply : DecimateModifier F -> Object F -> Object F.

(** Lines 63-80: the Body pass, then the Face pass on its result. *)
Definition decimate_passes (body_ratio face_ratio : F) (obj : Object F) : Object F :=
  let obj1 :=
    modifier_apply (mkDecimateModifier "DecimateBody" COLLAPSE body_ratio "Body") obj in
  modifier_apply (mkDecimateModifier "DecimateFace" COLLAPSE face_ratio "Face") obj1.

(** The body of the loop over mesh objects, lines 26-85.  The percentage
    printed on line 83 divides by the original face count. *)
Definition process_object (body_ratio face_ratio face_cutoff_y : F)
    (obj : Object F) : PyError + Object F :=
  (let mesh := data obj in
   let original_faces := List.length (polygons mesh) in
   r <- find_regions face_cutoff_y mesh ;;
   let obj0 :=
     mkObject mesh
       (vertex_groups obj ++
        [new_group "Face" (face_verts r); new_group "Body" (body_verts r)]) in
   let obj2 := decimate_passes body_ratio face_ratio obj0 in
   if Nat.eqb original_faces 0 then raise ZeroDivisionError else ret obj2)%py.

(** The loop itself: the first exception ends the run. *)
Fixpoint process_all (body_ratio face_ratio face_cutoff_y : F)
    (mesh_objects : list (Object F)) : PyError + list (Object F) :=
  match mesh_objects with
  | [] => ret []
  | obj :: rest =>
      (obj' <- process_object body_ratio face_ratio face_cutoff_y obj ;;
       rest' <- process_all body_ratio face_ratio face_cutoff_y rest ;;
       ret (obj' :: rest'))%py
  end.

End Script.

(** ** Exact arithmetic: floats read as rationals. *)
#[export] Instance Q_Float : Float Q := {|
  fsub := Qminus;
  fmul := Qmult;
  fone := 1%Q;
  flt := fun a b => negb (Qle_bool b a);
  fgt := fun a b => negb (Qle_bool a b);
  fge := fun a b => Qle_bool b a
|}.

(** ** IEEE binary64, the arithmetic of a Python float. *)
Definition binary64 : Type := spec_float.

Definition b64_prec : Z := 53.
Definition b64_emax : Z := 1024.

#[export] Instance binary64_Float : Float binary64 := {|
  fsub := SFsub b64_prec b64_emax;
  fmul := SFmul b64_prec b64_emax;
  fone := S754_finite false 4503599627370496 (-52);
  flt := SFltb;
  fgt := fun a b => SFltb b a;
  fge := fun a b => SFleb b a
|}.

(** The floats [n] and [n / 2^k], for an integer [n]. *)
Definition b64_of_Z (n : Z) : binary64 :=
  binary_normalize b64_prec b64_emax n 0 false.

Definition b64_dyadic (n : Z) (k : Z) : binary64 :=
  binary_normalize b64_prec b64_emax n (- k) false.

Definition b64_nan : binary64 := S754_nan.

(** Zero or a finite non-zero value: neither NaN nor an infinity. *)
Definition b64_is_finite (a : binary64) : bool :=
  match a with
  | S754_zero _ | S754_finite _ _ _ => true
  | S754_infinity _ | S754_nan => false
  end.

(** ** Vocabulary of the statements *)

(** The vertex indices of a mesh, and the Y coordinates [min] and [max]
    iterate over. *)
Definition vertex_indices {F : Type} (mesh : Mesh F) : list nat :=
  map index (vertices mesh).

Definition y_coords {F : Type} (mesh : Mesh F) : list F :=
  map (fun v => y (co v)) (vertices mesh).

(** [len(obj.data.polygons)], the face count the script prints. *)
Definition face_count {F : Type} (obj : Object F) : nat :=
  List.length (polygons (data obj)).

(** The vertices of a region, given its index list. *)
Definition in_region {F : Type} (region : list nat) (v : MeshVertex F) : Prop :=
  In (index v) region.

(** A least and a greatest element of a list of rationals. *)
Definition is_minimum (m : Q) (l : list Q) : Prop :=
  In m l /\ forall q, In q l -> (m <= q)%Q.

Definition is_maximum (m : Q) (l : list Q) : Prop :=
  In m l /\ forall q, In q l -> (q <= m)%Q.

(** The threshold as the specification words it. *)
Definition spec_threshold (min_y max_y face_cutoff : Q) : Q :=
  (max_y - (max_y - min_y) * (1 - face_cutoff))%Q.



Definition spec_cutoff_one (mesh : Mesh Q) : Prop :=
  exists r, find_regions 1%Q mesh = inr r /\
    (face_threshold r == min_y r)%Q /\
    forall v, In v (vertices mesh) -> in_region (face_verts r) v.


(** ** Sample meshes *)

(** The cube of the specification's scenario: 8 vertices, y in [0, 2]. *)
Definition cube_of {F : Type} (m1 p0 p1 p2 : F) : Mesh F :=
  mkMesh
    [ mkVector m1 p0 m1; mkVector p1 p0 m1; mkVector p1 p0 p1; mkVector m1 p0 p1;
      mkVector m1 p2 m1; mkVector p1 p2 m1; mkVector p1 p2 p1; mkVector m1 p2 p1 ]
    [ [0; 1; 2; 3]; [4; 5; 6; 7]; [0; 1; 5; 4];
      [1; 2; 6; 5]; [2; 3; 7; 6]; [3; 0; 4; 7] ]%nat.

Definition cube : Mesh Q := cube_of (-1) 0 1 2.

Definition cube64 : Mesh binary64 :=
  cube_of (b64_of_Z (-1)) (b64_of_Z 0) (b64_of_Z 1) (b64_of_Z 2).


Definition flat_quad64 : Mesh binary64 :=
  mkMesh
    [ mkVector (b64_of_Z 0) (b64_dyadic 3 1) (b64_of_Z 0);
      mkVector (b64_of_Z 1) (b64_dyadic 3 1) (b64_of_Z 0);
      mkVector (b64_of_Z 1) (b64_dyadic 3 1) (b64_of_Z 1);
      mkVector (b64_of_Z 0) (b64_dyadic 3 1) (b64_of_Z 1) ]
    [ [0; 1; 2; 3] ]%nat.

Definition empty_mesh : Mesh Q := mkMesh [] [].

(** Two vertices very far apart: y = -3 and y = 2^60. *)
Definition tall_edge64 : Mesh binary64 :=
  mkMesh
    [ mkVector (b64_of_Z 0) (b64_of_Z (-3)) (b64_of_Z 0);
      mkVector (b64_of_Z 0) (b64_of_Z (2 ^ 60)) (b64_of_Z 0) ]
    [].

(** A stand-in for the collapse decimation, used to exercise the passes:
    it keeps the first ceil(ratio * n) of the n polygons. *)
Definition keep_leading (m : DecimateModifier Q) (obj : Object Q) : Object Q :=
  let n := List.length (polygons (data obj)) in
  let kept := Z.to_nat (Qceiling (ratio m * inject_Z (Z.of_nat n))) in
  mkObject (mkMesh (positions (data obj)) (firstn kept (polygons (data obj))))
           (vertex_groups obj).

End Decimate.

(* ================================================================== *)
(** * apps/workout/add_files_to_xcode.py *)
(* ================================================================== *)

Module AddFilesToXcode.

Local Open Scope string_scope.

(** [pathlib]: [d / p] and [path.name], the last component of a path. *)
Definition path_join (d p : string) : string := d ++ "/" ++ p.

Fixpoint name_from (acc p : string) : string :=
  match p with
  | EmptyString => acc
  | String c rest =>
      if Ascii.eqb c "/"%char then name_from EmptyString rest
      else name_from (acc ++ String c EmptyString) rest
  end.

Definition path_name (p : string) : string := name_from EmptyString p.

Definition NEW_FILES : list string :=
  [ "Services/WorkoutHistoryService.swift";
    "Services/ContextResolver.swift";
    "Services/WorkoutActionStack.swift";
    "Services/ExerciseReplacementService.swift";
    "Views/Components/HistoricalContextView.swift";
    "Views/Components/SupersetIndicator.swift";
    "Parsers/CorrectionCommandParser.swift";
    "Managers/LLMWorkoutParserEnhanced.swift";
    "Managers/WorkoutManagerExtensions.swift" ].

Definition TARGET_NAME : string := "phoneless-hevy Watch App".

(** The disk: the content of each path that exists. *)
Definition FileSystem : Type := string -> option string.

Definition path_exists (fs : FileSystem) (p : string) : bool :=
  match fs p with
  | Some _ => true
  | None => false
  end.

(** What a call into pbxproj leaves behind: the value after the call and
    whether it returned normally ([ok]) or raised. *)
Record Attempt (A : Type) : Type := mkAttempt { after : A; ok : bool }.
Arguments mkAttempt {A}.
Arguments after {A}.
Arguments ok {A}.

(** What one run of [add_files_to_project] does. *)
Record Outcome : Type := mkOutcome {
  returned : bool;        (* the function's result *)
  disk : FileSystem;      (* the disk when it returns *)
  saved : bool;           (* was [project.save()] called? *)
  added_count : nat;
  skipped_count : nat
}.

Section Script.
(** The directory of the script, [Path(__file__).parent]. *)
Variable SCRIPT_DIR : string.

Definition PROJECT_PATH : string :=
  path_join (path_join SCRIPT_DIR "phoneless-hevy.xcodeproj") "project.pbxproj".
Definition WATCH_APP_DIR : string :=
  path_join SCRIPT_DIR "phoneless-hevy Watch App".

(** pbxproj: the project object and the four calls the script makes. *)
Variable XcodeProject : Type.
Variable PBXFileReference : Type.
Variable load : string -> option XcodeProject.
Variable get_files_by_name : XcodeProject -> string -> list PBXFileReference.
Variable add_file : FileSystem -> XcodeProject -> string -> string -> Attempt XcodeProject.
Variable save : XcodeProject -> FileSystem -> Attempt FileSystem.

(** The loop state: the project object and the two counters. *)
Record LoopState : Type := mkLoopState {
  project : XcodeProject;
  added : nat;
  skipped : nat
}.

(** Lines 70-92: one iteration. *)
Definition add_one (fs : FileSystem) (st : LoopState) (file_path : string) : LoopState :=
  let full_path := path_join WATCH_APP_DIR file_path in
  if negb (path_exists fs full_path) then st
  else
    match get_files_by_name (project st) (path_name full_path) with
    | _ :: _ => mkLoopState (project st) (added st) (S (skipped st))
    | [] =>
        let rel_path := "phoneless-hevy Watch App/" ++ file_path in
        let r := add_file fs (project st) rel_path TARGET_NAME in
        if ok r then mkLoopState (after r) (S (added st)) (skipped st)
        else mkLoopState (after r) (added st) (skipped st)
    end.

(** Lines 51-105. *)
Definition add_files_to_project (fs : FileSystem) : Outcome :=
  match fs PROJECT_PATH with
  | None => mkOutcome false fs false 0 0
  | Some content =>
      match load content with
      | None => mkOutcome false fs false 0 0
      | Some proj =>
          let st := fold_left (add_one fs) NEW_FILES (mkLoopState proj 0 0) in
          if Nat.ltb 0 (added st) then
            let w := save (project st) fs in
            mkOutcome (ok w) (after w) true (added st) (skipped st)
          else mkOutcome true fs false (added st) (skipped st)
      end
  end.

End Script.

(** A listed file needs no registration when it is missing on disk or the
    project already has a file of that name. *)
Definition nothing_to_add {P R : Type} (dir : string) (fs : FileSystem)
    (get_files_by_name : P -> string -> list R) (proj : P) : Prop :=
  forall f, In f NEW_FILES ->
    fs (path_join (WATCH_APP_DIR dir) f) = None \/
    get_files_by_name proj (path_name (path_join (WATCH_APP_DIR dir) f)) <> [].

(** ** A small stand-in for pbxproj, to run the function on sample disks:
    a project is the list of the paths it references, stored one per line. *)
Definition toy_project : Type := list string.

Fixpoint lines_from (acc s : string) : list string :=
  match s with
  | EmptyString => match acc with EmptyString => [] | _ => [acc] end
  | String c rest =>
      if Ascii.eqb c "010"%char then acc :: lines_from EmptyString rest
      else lines_from (acc ++ String c EmptyString) rest
  end.

Definition toy_load (content : string) : option toy_project :=
  Some (lines_from EmptyString content).

Definition toy_get_files_by_name (p : toy_project) (nm : string) : list string :=
  filter (fun q => String.eqb (path_name q) nm) p.

Definition toy_add_file (fs : FileSystem) (p : toy_project) (rel_path target : string)
    : Attempt toy_project :=
  mkAttempt (p ++ [rel_path])%list true.

Definition toy_dump (p : toy_project) : string :=
  fold_right (fun q s => q ++ String "010"%char s) EmptyString p.

Definition toy_save (path : string) (p : toy_project) (fs : FileSystem)
    : Attempt FileSystem :=
  mkAttempt (fun q => if String.eqb q path then Some (toy_dump p) else fs q) true.

Definition toy_run (dir : string) (fs : FileSystem) : Outcome :=
  add_files_to_project dir toy_project string toy_load toy_get_files_by_name
    toy_add_file (toy_save (PROJECT_PATH dir)) fs.

(** A disk holding only the project file, which references nothing. *)
Definition bare_disk : FileSystem :=
  fun q => if String.eqb q (PROJECT_PATH "/w") then Some EmptyString else None.

(** A disk that also holds one of the listed Swift files. *)
Definition disk_with_resolver : FileSystem :=
  fun q =>
    if String.eqb q (path_join (WATCH_APP_DIR "/w") "Services/ContextResolver.swift")
    then Some "import Foundation"
    else bare_disk q.

(** The same disk once the project already references that file. *)
Definition disk_resolver_registered : FileSystem :=
  fun q =>
    if String.eqb q (PROJECT_PATH "/w")
    then Some (toy_dump ["phoneless-hevy Watch App/Services/ContextResolver.swift"])
    else disk_with_resolver q.

(** A disk without the project file. *)
Definition no_project_disk : FileSystem := fun _ => None.

End AddFilesToXcode.

(* ================================================================== *)
(** * apps/portfolio/decimate.py: the command line and the scene *)
(* ================================================================== *)

Module DecimateScript.
Import Decimate.

Local Open Scope string_scope.

(** What the whole script can raise: the builtins' exceptions of
    [PyError], IndexError from [argv[0]] and [argv[1]], and the
    RuntimeError of a bpy operator that fails. *)
Inductive ScriptError : Type :=
| Builtin (e : PyError)
| IndexError
| RuntimeError.

Definition lift {A : Type} (m : PyError + A) : ScriptError + A :=
  match m with
  | inl e => inl (Builtin e)
  | inr a => inr a
  end.

Definition and_then {A B : Type} (m : ScriptError + A)
    (k : A -> ScriptError + B) : ScriptError + B :=
  match m with
  | inl e => inl e
  | inr a => k a
  end.

Declare Scope script_scope.
Delimit Scope script_scope with script.
Notation "x <~ m ;; k" := (and_then m (fun x => k))
  (at level 61, m at next level, right associativity) : script_scope.

(** Lines 7-11: the five settings of a run. *)
Record Args (F : Type) : Type := mkArgs {
  input_file : string;
  output_file : string;
  body_ratio : F;
  face_ratio : F;
  face_cutoff_y : F
}.
Arguments mkArgs {F}.
Arguments input_file {F}.
Arguments output_file {F}.
Arguments body_ratio {F}.
Arguments face_ratio {F}.
Arguments face_cutoff_y {F}.

(** The objects of the scene: meshes, and everything else ([obj.type] is
    not 'MESH'). *)
Inductive OtherType : Type := EMPTY | CAMERA | LIGHT | ARMATURE | CURVE.

Inductive SceneObject (F : Type) : Type :=
| MeshObject (o : Object F)
| OtherObject (t : OtherType).
Arguments MeshObject {F}.
Arguments OtherObject {F}.

(** The call of the exporter on line 88: the path and the scene it writes. *)
Record ExportCall (F : Type) : Type := mkExportCall {
  filepath : string;
  exported : list (SceneObject F)
}.
Arguments mkExportCall {F}.
Arguments filepath {F}.
Arguments exported {F}.

(** Line 5: [argv[argv.index("--") + 1:]], the items after the first "--";
    [list.index] raises ValueError when there is none. *)
Fixpoint after_separator (argv : list string) : ScriptError + list string :=
  match argv with
  | [] => inl (Builtin ValueError)
  | a :: rest => if String.eqb a "--" then inr rest else after_separator rest
  end.

(** [argv[i]]. *)
Definition item (argv : list string) (i : nat) : ScriptError + string :=
  match nth_error argv i with
  | Some a => inr a
  | None => inl IndexError
  end.

(** Line 23. *)
Fixpoint mesh_objects {F : Type} (scene : list (SceneObject F)) : list (Object F) :=
  match scene with
  | [] => []
  | MeshObject o :: rest => o :: mesh_objects rest
  | OtherObject _ :: rest => mesh_objects rest
  end.

(** The loop changes the mesh objects in place: the scene afterwards holds
    the processed objects where the mesh objects were. *)
Fixpoint write_back {F : Type} (scene : list (SceneObject F))
    (processed : list (Object F)) : list (SceneObject F) :=
  match scene with
  | [] => []
  | MeshObject o :: rest =>
      match processed with
      | o' :: more => MeshObject o' :: write_back rest more
      | [] => MeshObject o :: write_back rest []
      end
  | OtherObject t :: rest => OtherObject t :: write_back rest processed
  end.

Section Script.
Context {F : Type} {FF : Float F}.

(** [float(s)]: the parsed value, or None when it raises ValueError. *)
Variable float : string -> option F.

(** The literals 0.02, 0.15 and 0.5 of lines 9-11. *)
Variable default_body_ratio : F.
Variable default_face_ratio : F.
Variable default_face_cutoff_y : F.

(** [float(argv[i]) if len(argv) > i else default]. *)
Definition float_item (argv : list string) (i : nat) (default : F) : ScriptError + F :=
  match nth_error argv i with
  | Some a =>
      match float a with
      | Some v => inr v
      | None => inl (Builtin ValueError)
      end
  | None => inr default
  end.

(** Lines 4-11. *)
Definition parse_args (sys_argv : list string) : ScriptError + Args F :=
  (argv <~ after_separator sys_argv ;;
   input <~ item argv 0 ;;
   output <~ item argv 1 ;;
   body <~ float_item argv 2 default_body_ratio ;;
   face <~ float_item argv 3 default_face_ratio ;;
   cutoff <~ float_item argv 4 default_face_cutoff_y ;;
   inr (mkArgs input output body face cutoff))%script.

(** Blender: the glTF importer (None when the operator fails) and the
    application of a modifier. *)
Variable import_gltf : string -> option (list (SceneObject F)).
Variable modifier_apply : DecimateModifier F -> Object F -> Object F.

(** The whole script, lines 4-89: what reaches the exporter. *)
Definition run_script (sys_argv : list string) : ScriptError + ExportCall F :=
  (args <~ parse_args sys_argv ;;
   scene <~ match import_gltf (input_file args) with
            | Some scene => inr scene
            | None => inl RuntimeError
            end ;;
   processed <~ lift (process_all modifier_apply (body_ratio args) (face_ratio args)
                        (face_cutoff_y args) (mesh_objects scene)) ;;
   inr (mkExportCall (output_file args) (write_back scene processed)))%script.

End Script.




(** A mesh object is fit for processing when its mesh has a vertex and a
    polygon. *)
Definition has_vertices_and_faces {F : Type} (obj : Object F) : Prop :=
  positions (data obj) <> [] /\ polygons (data obj) <> [].

(** A triangle one of whose vertices has a NaN height. *)
Definition nan_triangle64 : Mesh binary64 :=
  mkMesh
    [ mkVector (b64_of_Z 0) (b64_of_Z 0) (b64_of_Z 0);
      mkVector (b64_of_Z 1) b64_nan (b64_of_Z 0);
      mkVector (b64_of_Z 0) (b64_of_Z 2) (b64_of_Z 1) ]
    [ [0; 1; 2] ]%nat.

(** A mesh with vertices and no polygon. *)
Definition loose_points : Mesh Q :=
  mkMesh [ mkVector 0 0 0; mkVector 0 1 0 ]%Q [].

(** Strictly increasing lists of indices. *)
Fixpoint increasing_from (lo : nat) (l : list nat) : Prop :=
  match l with
  | [] => True
  | i :: rest => (lo <= i)%nat /\ increasing_from (S i) rest
  end.

(** ** Stand-ins to run the script on sample command lines *)

(** A parser for unsigned decimals such as "12" or "0.25". *)
Definition digit_of (c : ascii) : option Z :=
  let n := Z.of_nat (nat_of_ascii c) in
  if ((48 <=? n) && (n <=? 57))%Z then Some (n - 48)%Z else None.

Fixpoint decimal_from (num den : Z) (point : bool) (s : string) : option Q :=
  match s with
  | EmptyString => Some (Qmake num (Z.to_pos den))
  | String c rest =>
      if Ascii.eqb c "."%char then
        if point then None else decimal_from num den true rest
      else
        match digit_of c with
        | Some d =>
            decimal_from (10 * num + d)%Z (if point then 10 * den else den)%Z point rest
        | None => None
        end
  end.

Definition toy_float (s : string) : option Q :=
  match s with
  | EmptyString => None
  | _ => decimal_from 0 1 false s
  end.

Definition toy_import (path : string) : option (list (SceneObject Q)) :=
  if String.eqb path "in.glb"
  then Some [OtherObject CAMERA; MeshObject (mkObject cube []); OtherObject LIGHT]
  else if String.eqb path "broken.glb"
  then Some [MeshObject (mkObject cube []); MeshObject (mkObject empty_mesh [])]
  else None.

Definition toy_script (sys_argv : list string) : ScriptError + ExportCall Q :=
  run_script toy_float (1 # 50)%Q (3 # 20)%Q (1 # 2)%Q toy_import keep_leading sys_argv.

End DecimateScript.

(* ================================================================== *)
(** * apps/workout/add_files_to_xcode.py: the build check and main *)
(* ================================================================== *)

Module XcodeMain.
Import AddFilesToXcode.

(** What [subprocess.run] gives on line 115: a finished process, the
    TimeoutExpired of the five-minute limit, or another exception. *)
Inductive RunResult : Type :=
| Completed (returncode : Z) (stdout stderr : string)
| TimeoutExpired
| OtherException.

(** How [main] ends: it returns, or [sys.exit(code)]. *)
Inductive Exit : Type :=
| Returns
| SysExit (code : Z).

Record MainOutcome : Type := mkMainOutcome {
  exit : Exit;
  registration : Outcome;   (* what [add_files_to_project] did *)
  build_ran : bool          (* was xcodebuild started? *)
}.

Section Script.
Variable SCRIPT_DIR : string.
Variable XcodeProject : Type.
Variable PBXFileReference : Type.
Variable load : string -> option XcodeProject.
Variable get_files_by_name : XcodeProject -> string -> list PBXFileReference.
Variable add_file : FileSystem -> XcodeProject -> string -> string -> Attempt XcodeProject.
Variable save : XcodeProject -> FileSystem -> Attempt FileSystem.

(** xcodebuild, run on the disk as [add_files_to_project] left it. *)
Variable xcodebuild : FileSystem -> RunResult.

(** Lines 108-148. *)
Definition verify_build (fs : FileSystem) : bool :=
  match xcodebuild fs with
  | Completed returncode _ _ => Z.eqb returncode 0
  | TimeoutExpired => false
  | OtherException => false
  end.

(** Lines 151-169. *)
Definition main (fs : FileSystem) : MainOutcome :=
  let o := add_files_to_project SCRIPT_DIR XcodeProject PBXFileReference
             load get_files_by_name add_file save fs in
  if negb (returned o) then mkMainOutcome (SysExit 1) o false
  else if negb (verify_build (disk o)) then mkMainOutcome (SysExit 1) o true
  else mkMainOutcome Returns o true.

End Script.

(** How many of the listed files are on the disk. *)
Definition present_count (dir : string) (fs : FileSystem) : nat :=
  List.length (filter (fun f => path_exists fs (path_join (WATCH_APP_DIR dir) f)) NEW_FILES).

(** A relative path whose last component is a real name: pathlib's [name]
    is then the text after the last slash. *)
Definition has_file_name (p : string) : Prop :=
  path_name p <> EmptyString /\ path_name p <> "."%string.

(** Stand-ins for xcodebuild. *)
Definition build_passes (fs : FileSystem) : RunResult :=
  Completed 0 "BUILD SUCCEEDED" EmptyString.

Definition build_fails (fs : FileSystem) : RunResult :=
  Completed 65 "error: cannot find type" EmptyString.

(** pbxproj refusing every file. *)
Definition failing_add_file (fs : FileSystem) (p : toy_project) (rel_path target : string)
    : Attempt toy_project :=
  mkAttempt p false.

Definition toy_main (build : FileSystem -> RunResult) (fs : FileSystem) : MainOutcome :=
  main "/w" toy_project string toy_load toy_get_files_by_name toy_add_file
    (toy_save (PROJECT_PATH "/w")) build fs.

End XcodeMain.

(* ================================================================== *)
(** * Properties of the decimation script *)
(* ================================================================== *)

Module DecimateSpec.
Import Decimate.

(** ** Facts that hold for any float arithmetic *)

Section AnyFloat.
Context {F : Type} {FF : Float F}.

Lemma indices_from (i : nat) (ps : list (Vector F)) :
  map index (vertices_from i ps) = seq i (List.length ps).
Proof.
  revert i; induction ps as [|p ps IH]; intro i; simpl; [reflexivity|].
  now rewrite IH.
Qed.

Lemma vertex_indices_seq (mesh : Mesh F) :
  vertex_indices mesh = seq 0 (List.length (positions mesh)).
Proof. apply indices_from. Qed.

Lemma positions_from (i : nat) (ps : list (Vector F)) :
  map co (vertices_from i ps) = ps.
Proof.
  revert i; induction ps as [|p ps IH]; intro i; simpl; [reflexivity|].
  now rewrite IH.
Qed.

Lemma y_coords_positions (mesh : Mesh F) : y_coords mesh = map y (positions mesh).
Proof.
  unfold y_coords, vertices.
  rewrite <- (positions_from 0 (positions mesh)) at 2.
  now rewrite map_map.
Qed.

(** [min] and [max] return one of the items. *)
Lemma py_min_in (xs : list F) (m : F) : py_min xs = inr m -> In m xs.
Proof.
  destruct xs as [|a r]; simpl; [discriminate|].
  intro E; injection E as <-.
  revert a; induction r as [|b r IH]; intro a; cbn [fold_left]; [now left|].
  destruct (IH (if flt b a then b else a)) as [H|H]; [|now right; right].
  rewrite <- H; destruct (flt b a); [right; now left|now left].
Qed.

Lemma py_max_in (xs : list F) (m : F) : py_max xs = inr m -> In m xs.
Proof.
  destruct xs as [|a r]; simpl; [discriminate|].
  intro E; injection E as <-.
  revert a; induction r as [|b r IH]; intro a; cbn [fold_left]; [now left|].
  destruct (IH (if fgt b a then b else a)) as [H|H]; [|now right; right].
  rewrite <- H; destruct (fgt b a); [right; now left|now left].
Qed.

Lemma filter_all {A : Type} (keep : A -> bool) (l : list A) :
  (forall a, In a l -> keep a = true) -> filter keep l = l.
Proof.
  induction l as [|a l IH]; simpl; intro H; [reflexivity|].
  rewrite (H a (or_introl eq_refl)), IH; auto.
Qed.

Lemma vertices_nil (mesh : Mesh F) :
  vertices mesh = [] <-> positions mesh = [].
Proof.
  unfold vertices; destruct (positions mesh); simpl; split; congruence.
Qed.

Lemma NoDup_vertex_indices (mesh : Mesh F) : NoDup (vertex_indices mesh).
Proof. rewrite vertex_indices_seq; apply seq_NoDup. Qed.

(** Two vertices of a list with distinct indices are equal as soon as
    their indices are. *)
Lemma index_determines (l : list (MeshVertex F)) :
  NoDup (map index l) ->
  forall v w, In v l -> In w l -> index v = index w -> v = w.
Proof.
  induction l as [|a l IH]; simpl; intros Hnd v w Hv Hw E; [contradiction|].
  inversion Hnd as [|? ? Hna Hnd']; subst.
  destruct Hv as [->|Hv], Hw as [->|Hw]; auto.
  - exfalso; apply Hna; rewrite E; now apply in_map.
  - exfalso; apply Hna; rewrite <- E; now apply in_map.
Qed.

(** Selecting vertices keeps their indices distinct. *)
Lemma NoDup_selected_indices (keep : MeshVertex F -> bool) (verts : list (MeshVertex F)) :
  NoDup (map index verts) -> NoDup (map index (filter keep verts)).
Proof.
  induction verts as [|v verts IH]; simpl; intro Hnd; [constructor|].
  inversion Hnd as [|? ? Hnv Hnd']; subst.
  destruct (keep v); simpl; auto.
  constructor; auto.
  intro Hin; apply Hnv.
  apply in_map_iff in Hin; destruct Hin as [w [E Hw]].
  apply filter_In in Hw; rewrite <- E; apply in_map; tauto.
Qed.

(** The loop of lines 52-56 computes two filters of the vertex list. *)
Lemma classify_loop (t : F) (verts : list (MeshVertex F)) (acc : list nat * list nat) :
  fold_left (classify_step t) verts acc =
  (fst acc ++ map index (filter (fun v => fge (y (co v)) t) verts),
   snd acc ++ map index (filter (fun v => negb (fge (y (co v)) t)) verts)).
Proof.
  revert acc; induction verts as [|v verts IH]; intro acc; simpl.
  - rewrite !app_nil_r; now destruct acc.
  - rewrite IH; unfold classify_step.
    destruct (fge (y (co v)) t); simpl; now rewrite <- !app_assoc.
Qed.

Lemma classify_filters (t : F) (verts : list (MeshVertex F)) :
  classify t verts =
  (map index (filter (fun v => fge (y (co v)) t) verts),
   map index (filter (fun v => negb (fge (y (co v)) t)) verts)).
Proof. unfold classify; now rewrite classify_loop. Qed.

(** Membership of a vertex of the mesh in either region is decided by
    the comparison on line 53. *)
Lemma face_membership (t : F) (mesh : Mesh F) (v : MeshVertex F) :
  In v (vertices mesh) ->
  (In (index v) (fst (classify t (vertices mesh))) <-> fge (y (co v)) t = true).
Proof.
  intro Hv; rewrite classify_filters; simpl; split.
  - intro Hin; apply in_map_iff in Hin; destruct Hin as [w [E Hw]].
    apply filter_In in Hw; destruct Hw as [Hw Hp].
    assert (w = v) as <-; [|exact Hp].
    apply (index_determines (vertices mesh)); auto.
    apply NoDup_vertex_indices.
  - intro Hp; apply in_map; apply filter_In; auto.
Qed.

Lemma body_membership (t : F) (mesh : Mesh F) (v : MeshVertex F) :
  In v (vertices mesh) ->
  (In (index v) (snd (classify t (vertices mesh))) <-> fge (y (co v)) t = false).
Proof.
  intro Hv; rewrite classify_filters; simpl; split.
  - intro Hin; apply in_map_iff in Hin; destruct Hin as [w [E Hw]].
    apply filter_In in Hw; destruct Hw as [Hw Hp].
    assert (w = v) as <-; [|now apply negb_true_iff].
    apply (index_determines (vertices mesh)); auto.
    apply NoDup_vertex_indices.
  - intro Hp; apply in_map; apply filter_In; split; auto.
    now apply negb_true_iff.
Qed.

Lemma classify_disjoint (t : F) (mesh : Mesh F) (i : nat) :
  ~ (In i (fst (classify t (vertices mesh))) /\
     In i (snd (classify t (vertices mesh)))).
Proof.
  intros [Hf Hb].
  assert (Hf' := Hf); rewrite classify_filters in Hf'; simpl in Hf'.
  apply in_map_iff in Hf'; destruct Hf' as [v [E Hv]].
  apply filter_In in Hv; destruct Hv as [Hv _]; subst i.
  apply (face_membership t mesh v Hv) in Hf.
  apply (body_membership t mesh v Hv) in Hb.
  congruence.
Qed.

Lemma classify_cover (t : F) (mesh : Mesh F) (i : nat) :
  In i (fst (classify t (vertices mesh))) \/
  In i (snd (classify t (vertices mesh))) <-> In i (vertex_indices mesh).
Proof.
  unfold vertex_indices; rewrite classify_filters; simpl; split.
  - intros [H|H]; apply in_map_iff in H; destruct H as [v [E Hv]];
      apply filter_In in Hv; apply in_map_iff; exists v; tauto.
  - intro H; apply in_map_iff in H; destruct H as [v [E Hv]]; subst i.
    destruct (fge (y (co v)) t) eqn:Hp; [left|right];
      apply in_map; apply filter_In; split; auto.
    now rewrite Hp.
Qed.

(** [find_regions] raises exactly on a mesh without vertices. *)
Lemma find_regions_nonempty (c : F) (mesh : Mesh F) :
  positions mesh <> [] ->
  exists lo hi,
    py_min (y_coords mesh) = inr lo /\
    py_max (y_coords mesh) = inr hi /\
    find_regions c mesh =
    inr (mkRegions lo hi (compute_face_threshold lo hi c)
           (fst (classify (compute_face_threshold lo hi c) (vertices mesh)))
           (snd (classify (compute_face_threshold lo hi c) (vertices mesh)))).
Proof.
  intro Hne; unfold find_regions, y_coords.
  destruct (vertices mesh) as [|v vs] eqn:E.
  - apply vertices_nil in E; contradiction.
  - simpl; eauto.
Qed.

Lemma find_regions_empty (c : F) (mesh : Mesh F) :
  positions mesh = [] -> find_regions c mesh = inl ValueError.
Proof.
  intro He; unfold find_regions.
  apply vertices_nil in He; now rewrite He.
Qed.

End AnyFloat.

(** C1. On every mesh with at least one vertex and for every face cutoff,
    the classification runs to completion and puts each vertex index in
    exactly one region: no index is in both [face_verts] and [body_verts],
    an index is in one of them exactly when it is a vertex index of the
    mesh, and neither list repeats an index.  This holds whatever the float
    arithmetic is. *)
Theorem regions_partition_vertices {F : Type} {FF : Float F}
    (face_cutoff_y : F) (mesh : Mesh F) :
  positions mesh <> [] ->
  exists r, find_regions face_cutoff_y mesh = inr r /\
    (forall i, ~ (In i (face_verts r) /\ In i (body_verts r))) /\
    (forall i, In i (face_verts r) \/ In i (body_verts r) <->
               In i (vertex_indices mesh)) /\
    NoDup (face_verts r) /\ NoDup (body_verts r).
Proof.
  intro Hne.
  destruct (find_regions_nonempty face_cutoff_y mesh Hne) as [lo [hi [_ [_ E]]]].
  eexists; split; [exact E|]; simpl.
  split; [apply classify_disjoint|].
  split; [apply classify_cover|].
  rewrite classify_filters; simpl.
  split; apply NoDup_selected_indices; apply NoDup_vertex_indices.
Qed.

Lemma regions_partition_vertices_witness :
  positions cube <> [] /\
  exists r, find_regions (1 # 2) cube = inr r /\
    (forall i, ~ (In i (face_verts r) /\ In i (body_verts r))) /\
    (forall i, In i (face_verts r) \/ In i (body_verts r) <->
               In i (vertex_indices cube)) /\
    NoDup (face_verts r) /\ NoDup (body_verts r).
Proof.
  assert (H : positions cube <> []) by (simpl; discriminate).
  split; [exact H | exact (regions_partition_vertices (1 # 2) cube H)].
Defined.

(** ** The passes and the error branch, for any float arithmetic *)

Section Passes.
Context {F : Type} {FF : Float F}.
Variable modifier_apply : DecimateModifier F -> Object F -> Object F.

(** What [process_object] returns, case by case. *)
Lemma process_object_cases (body_ratio face_ratio face_cutoff_y : F) (obj : Object F) :
  (positions (data obj) = [] /\
   process_object modifier_apply body_ratio face_ratio face_cutoff_y obj =
   inl ValueError) \/
  (positions (data obj) <> [] /\ polygons (data obj) = [] /\
   process_object modifier_apply body_ratio face_ratio face_cutoff_y obj =
   inl ZeroDivisionError) \/
  (positions (data obj) <> [] /\ polygons (data obj) <> [] /\
   exists r,
     find_regions face_cutoff_y (data obj) = inr r /\
     process_object modifier_apply body_ratio face_ratio face_cutoff_y obj =
     inr (decimate_passes modifier_apply body_ratio face_ratio
            (mkObject (data obj)
               (vertex_groups obj ++
                [new_group "Face" (face_verts r);
                 new_group "Body" (body_verts r)])))).
Proof.
  unfold process_object.
  destruct (positions (data obj)) as [|p ps] eqn:Ep.
  - left; split; [reflexivity|].
    now rewrite (find_regions_empty face_cutoff_y (data obj) Ep).
  - right.
    assert (Hne : positions (data obj) <> []) by (rewrite Ep; discriminate).
    destruct (find_regions_nonempty face_cutoff_y (data obj) Hne)
      as [lo [hi [_ [_ E]]]].
    rewrite E; simpl.
    destruct (polygons (data obj)) as [|f fs] eqn:Ef; simpl.
    + left; repeat split; discriminate.
    + right; split; [discriminate|]. split; [discriminate|].
      eexists; split; reflexivity.
Qed.

(** An exception while processing one object ends the whole run. *)
Lemma process_all_aborts (body_ratio face_ratio face_cutoff_y : F)
    (obj : Object F) (rest : list (Object F)) (e : PyError) :
  process_object modifier_apply body_ratio face_ratio face_cutoff_y obj = inl e ->
  process_all modifier_apply body_ratio face_ratio face_cutoff_y (obj :: rest) = inl e.
Proof. intro E; simpl; now rewrite E. Qed.

(** C8. Processing a mesh object raises the empty-sequence ValueError of
    [min] (the specification's EmptyMeshError) when the mesh has no
    vertex, and never raises it when the mesh has at least one. *)
Theorem empty_mesh_error (body_ratio face_ratio face_cutoff_y : F) (obj : Object F) :
  (positions (data obj) = [] ->
   process_object modifier_apply body_ratio face_ratio face_cutoff_y obj =
   inl ValueError) /\
  (positions (data obj) <> [] ->
   process_object modifier_apply body_ratio face_ratio face_cutoff_y obj <>
   inl ValueError).
Proof.
  destruct (process_object_cases body_ratio face_ratio face_cutoff_y obj)
    as [[He E]|[[Hne [_ E]]|[Hne [_ [r [_ E]]]]]]; rewrite E; split; intro H;
    try reflexivity; try contradiction; discriminate.
Qed.

(** The assumption on Blender: a collapse decimation at ratio 1.0 keeps
    every face. *)
Hypothesis collapse_at_one :
  forall (m : DecimateModifier F) (obj : Object F),
    decimate_type m = COLLAPSE -> ratio m = fone ->
    face_count (modifier_apply m obj) = face_count obj.

(** C7. With [body_ratio = 1.0] and [face_ratio = 1.0] the two passes
    leave the face count of every mesh unchanged, and so does the whole
    processing of a mesh object that has vertices and faces. *)
Theorem identity_ratios_keep_face_count (face_cutoff_y : F) (obj : Object F) :
  face_count (decimate_passes modifier_apply fone fone obj) = face_count obj /\
  (positions (data obj) <> [] -> polygons (data obj) <> [] ->
   exists obj',
     process_object modifier_apply fone fone face_cutoff_y obj = inr obj' /\
     face_count obj' = face_count obj).
Proof.
  assert (Hp : forall o, face_count (decimate_passes modifier_apply fone fone o) =
                         face_count o).
  { intro o; unfold decimate_passes.
    rewrite collapse_at_one by reflexivity.
    now rewrite collapse_at_one by reflexivity. }
  split; [apply Hp|].
  intros Hv Hf.
  destruct (process_object_cases fone fone face_cutoff_y obj)
    as [[He _]|[[_ [He _]]|[_ [_ [r [_ E]]]]]]; try contradiction.
  eexists; split; [exact E|].
  now rewrite Hp.
Qed.

End Passes.

Lemma empty_mesh_error_witness :
  process_object keep_leading (1 # 50) (3 # 20) (1 # 2) (mkObject empty_mesh []) =
  inl ValueError /\
  process_object keep_leading (1 # 50) (3 # 20) (1 # 2) (mkObject cube []) <>
  inl ValueError.
Proof.
  split.
  - apply (empty_mesh_error keep_leading (1 # 50) (3 # 20) (1 # 2)
             (mkObject empty_mesh [])); reflexivity.
  - apply (empty_mesh_error keep_leading (1 # 50) (3 # 20) (1 # 2)
             (mkObject cube [])); simpl; discriminate.
Defined.

Lemma keep_leading_at_one (m : DecimateModifier Q) (obj : Object Q) :
  decimate_type m = COLLAPSE -> ratio m = fone ->
  face_count (keep_leading m obj) = face_count obj.
Proof.
  intros _ Hr; unfold face_count, keep_leading; simpl.
  rewrite Hr; simpl fone.
  rewrite (Qceiling_comp _ _ (Qmult_1_l _)), Qceiling_Z, Nat2Z.id.
  now rewrite firstn_all.
Defined.

Lemma identity_ratios_keep_face_count_witness :
  face_count (decimate_passes keep_leading 1%Q 1%Q (mkObject cube [])) = 6%nat /\
  exists obj',
    process_object keep_leading 1%Q 1%Q (1 # 2)%Q (mkObject cube []) = inr obj' /\
    face_count obj' = 6%nat.
Proof.
  destruct (identity_ratios_keep_face_count keep_leading keep_leading_at_one
              (1 # 2)%Q (mkObject cube [])) as [H1 H2].
  split; [exact H1|].
  apply H2; simpl; discriminate.
Defined.

(** ** Exact arithmetic *)

Local Open Scope Q_scope.

Lemma fge_le (a t : Q) : fge a t = true <-> t <= a.
Proof. simpl; apply Qle_bool_iff. Qed.

Lemma fge_not_le (a t : Q) : fge a t = false <-> ~ t <= a.
Proof.
  rewrite <- fge_le; destruct (fge a t); split; congruence.
Qed.

Lemma fold_min_is_minimum (r : list Q) (a : Q) :
  is_minimum (fold_left (fun m b => if flt b m then b else m) r a) (a :: r).
Proof.
  revert a; induction r as [|b r IH]; intro a; cbn [fold_left].
  - split; [now left|]. intros q [<-|[]]; apply Qle_refl.
  - destruct (IH (if flt b a then b else a)) as [Hin Hle].
    assert (Hab : (if flt b a then b else a) <= a /\ (if flt b a then b else a) <= b).
    { simpl; destruct (Qle_bool a b) eqn:E; simpl.
      - apply Qle_bool_iff in E; split; [apply Qle_refl|exact E].
      - assert (~ a <= b) by (rewrite <- Qle_bool_iff; congruence).
        split; [lra|apply Qle_refl]. }
    split.
    + destruct Hin as [Hin|Hin]; [|now right; right].
      rewrite <- Hin; destruct (flt b a); [right; now left|now left].
    + intros q [<-|[<-|Hq]].
      * apply Qle_trans with (2 := proj1 Hab); apply Hle; now left.
      * apply Qle_trans with (2 := proj2 Hab); apply Hle; now left.
      * apply Hle; now right.
Qed.

Lemma fold_max_is_maximum (r : list Q) (a : Q) :
  is_maximum (fold_left (fun m b => if fgt b m then b else m) r a) (a :: r).
Proof.
  revert a; induction r as [|b r IH]; intro a; cbn [fold_left].
  - split; [now left|]. intros q [<-|[]]; apply Qle_refl.
  - destruct (IH (if fgt b a then b else a)) as [Hin Hle].
    assert (Hab : a <= (if fgt b a then b else a) /\ b <= (if fgt b a then b else a)).
    { simpl; destruct (Qle_bool b a) eqn:E; simpl.
      - apply Qle_bool_iff in E; split; [apply Qle_refl|exact E].
      - assert (~ b <= a) by (rewrite <- Qle_bool_iff; congruence).
        split; [lra|apply Qle_refl]. }
    split.
    + destruct Hin as [Hin|Hin]; [|now right; right].
      rewrite <- Hin; destruct (fgt b a); [right; now left|now left].
    + intros q [<-|[<-|Hq]].
      * apply Qle_trans with (1 := proj1 Hab); apply Hle; now left.
      * apply Qle_trans with (1 := proj2 Hab); apply Hle; now left.
      * apply Hle; now right.
Qed.

Lemma py_min_is_minimum (xs : list Q) (m : Q) :
  py_min xs = inr m -> is_minimum m xs.
Proof.
  destruct xs as [|a r]; simpl; [discriminate|].
  intro E; injection E as <-; apply fold_min_is_minimum.
Qed.

Lemma py_max_is_maximum (xs : list Q) (m : Q) :
  py_max xs = inr m -> is_maximum m xs.
Proof.
  destruct xs as [|a r]; simpl; [discriminate|].
  intro E; injection E as <-; apply fold_max_is_maximum.
Qed.

Lemma threshold_unfold (lo hi c : Q) :
  compute_face_threshold lo hi c = hi - (hi - lo) * (1 - c).
Proof. reflexivity. Qed.

Lemma filter_none {A : Type} (p : A -> bool) (l : list A) :
  (forall a, In a l -> p a = false) -> filter p l = [].
Proof.
  induction l as [|a l IH]; simpl; intro H; [reflexivity|].
  rewrite (H a (or_introl eq_refl)); apply IH; auto.
Qed.

(** What [find_regions] returns on a mesh with vertices, with the facts
    about its bounds that the statements below start from. *)
Lemma find_regions_bounds (c : Q) (mesh : Mesh Q) :
  positions mesh <> [] ->
  exists lo hi,
    is_minimum lo (y_coords mesh) /\ is_maximum hi (y_coords mesh) /\
    lo <= hi /\
    find_regions c mesh =
    inr (mkRegions lo hi (compute_face_threshold lo hi c)
           (fst (classify (compute_face_threshold lo hi c) (vertices mesh)))
           (snd (classify (compute_face_threshold lo hi c) (vertices mesh)))).
Proof.
  intro Hne.
  destruct (find_regions_nonempty c mesh Hne) as [lo [hi [Hlo [Hhi E]]]].
  apply py_min_is_minimum in Hlo; apply py_max_is_maximum in Hhi.
  exists lo, hi.
  split; [exact Hlo|]. split; [exact Hhi|]. split; [|exact E].
  apply Hlo, Hhi.
Qed.

Lemma y_in_coords (mesh : Mesh Q) (v : MeshVertex Q) :
  In v (vertices mesh) -> In (y (co v)) (y_coords mesh).
Proof. intro Hv; unfold y_coords; now apply in_map with (f := fun v => y (co v)). Qed.

(** C2. On every mesh with at least one vertex, [min_y] and [max_y] are
    the least and greatest vertex Y coordinates, the threshold computed on
    lines 40-41 is max_y - (max_y - min_y) * (1 - face_cutoff), and a vertex
    is put in the Face region exactly when its Y coordinate is at least the
    threshold, in the Body region exactly when it is not. *)
Theorem threshold_and_classification (face_cutoff : Q) (mesh : Mesh Q) :
  positions mesh <> [] ->
  exists r, find_regions face_cutoff mesh = inr r /\
    is_minimum (min_y r) (y_coords mesh) /\
    is_maximum (max_y r) (y_coords mesh) /\
    face_threshold r = spec_threshold (min_y r) (max_y r) face_cutoff /\
    forall v, In v (vertices mesh) ->
      (in_region (face_verts r) v <-> face_threshold r <= y (co v)) /\
      (in_region (body_verts r) v <-> ~ face_threshold r <= y (co v)).
Proof.
  intro Hne.
  destruct (find_regions_bounds face_cutoff mesh Hne) as [lo [hi [Hlo [Hhi [_ E]]]]].
  eexists; split; [exact E|]; simpl.
  split; [exact Hlo|]. split; [exact Hhi|]. split; [reflexivity|].
  intros v Hv; unfold in_region; split.
  - rewrite <- fge_le; now apply face_membership.
  - rewrite <- fge_not_le; now apply body_membership.
Qed.

Lemma threshold_and_classification_witness :
  positions cube <> [] /\
  exists r, find_regions (1 # 2) cube = inr r /\
    is_minimum (min_y r) (y_coords cube) /\
    is_maximum (max_y r) (y_coords cube) /\
    face_threshold r = spec_threshold (min_y r) (max_y r) (1 # 2) /\
    forall v, In v (vertices cube) ->
      (in_region (face_verts r) v <-> face_threshold r <= y (co v)) /\
      (in_region (body_verts r) v <-> ~ face_threshold r <= y (co v)).
Proof.
  assert (H : positions cube <> []) by (simpl; discriminate).
  split; [exact H | exact (threshold_and_classification (1 # 2) cube H)].
Defined.





(** C4, as the specification states it, fails on the cube: at cutoff 1 the
    threshold is 2, which is [max_y] and not [min_y] = 0, and the four
    bottom vertices are Body. *)
Lemma cutoff_one_refuted :
  (exists r, find_regions 1 cube = inr r /\
     min_y r == 0 /\ max_y r == 2 /\ face_threshold r == 2 /\
     face_verts r = [4; 5; 6; 7]%nat /\ body_verts r = [0; 1; 2; 3]%nat) /\
  ~ spec_cutoff_one cube.
Proof.
  split.
  - eexists; split; [vm_compute; reflexivity|].
    repeat split; reflexivity.
  - intros [r [E [Ht _]]].
    vm_compute in E; injection E as <-.
    vm_compute in Ht; discriminate.
Qed.

(** C4, amended.  On every mesh with at least one vertex, at cutoff 1 the
    threshold equals [max_y]: the Face region holds exactly the vertices
    whose coordinate is [max_y], and every other vertex is Body. *)
Theorem cutoff_one_threshold_is_max (mesh : Mesh Q) :
  positions mesh <> [] ->
  exists r, find_regions 1 mesh = inr r /\
    face_threshold r == max_y r /\
    forall v, In v (vertices mesh) ->
      (in_region (face_verts r) v <-> y (co v) == max_y r) /\
      (in_region (body_verts r) v <-> ~ y (co v) == max_y r).
Proof.
  intro Hne.
  destruct (find_regions_bounds 1 mesh Hne) as [lo [hi [Hlo [Hhi [Hle E]]]]].
  eexists; split; [exact E|]; simpl.
  assert (Ht : compute_face_threshold lo hi 1 == hi)
    by (rewrite threshold_unfold; ring).
  split; [exact Ht|].
  intros v Hv; unfold in_region.
  assert (Hy : y (co v) <= hi) by (apply Hhi; now apply y_in_coords).
  rewrite (face_membership _ mesh v Hv), (body_membership _ mesh v Hv).
  rewrite fge_le, fge_not_le, Ht.
  split; split; intro H; lra.
Qed.

Lemma cutoff_one_threshold_is_max_witness :
  positions cube <> [] /\
  exists r, find_regions 1 cube = inr r /\
    face_threshold r == max_y r /\
    forall v, In v (vertices cube) ->
      (in_region (face_verts r) v <-> y (co v) == max_y r) /\
      (in_region (body_verts r) v <-> ~ y (co v) == max_y r).
Proof.
  assert (H : positions cube <> []) by (simpl; discriminate).
  split; [exact H | exact (cutoff_one_threshold_is_max cube H)].
Defined.









(** ** The same inputs in IEEE binary64

    The inputs used above are exactly representable, and the script's float
    operations on them round to the values found with rationals. *)

Example b64_one : b64_of_Z 1 = fone.
Proof. reflexivity. Qed.

(** The specification's scenario: the cube at cutoff 0.5 has threshold 1.0,
    its top four vertices are Face and the rest Body. *)
Example cube64_cutoff_half :
  find_regions (b64_dyadic 1 1) cube64 =
  inr (mkRegions (b64_of_Z 0) (b64_of_Z 2) (b64_of_Z 1)
         [4; 5; 6; 7]%nat [0; 1; 2; 3]%nat).
Proof. vm_compute; reflexivity. Qed.

Example cube64_cutoff_one :
  find_regions (b64_of_Z 1) cube64 =
  inr (mkRegions (b64_of_Z 0) (b64_of_Z 2) (b64_of_Z 2)
         [4; 5; 6; 7]%nat [0; 1; 2; 3]%nat).
Proof. vm_compute; reflexivity. Qed.

Example cube64_cutoff_zero :
  find_regions (b64_of_Z 0) cube64 =
  inr (mkRegions (b64_of_Z 0) (b64_of_Z 2) (b64_of_Z 0)
         [0; 1; 2; 3; 4; 5; 6; 7]%nat []).
Proof. vm_compute; reflexivity. Qed.

Example threshold64_grows :
  compute_face_threshold (b64_of_Z 0) (b64_of_Z 2) (b64_dyadic 1 2) = b64_dyadic 1 1 /\
  compute_face_threshold (b64_of_Z 0) (b64_of_Z 2) (b64_dyadic 3 2) = b64_dyadic 3 1 /\
  flt (b64_dyadic 1 1) (b64_dyadic 3 1) = true.
Proof. vm_compute; auto. Qed.

(** Arithmetic facts of binary64 that the flat case rests on. *)
Lemma b64_sub_self (a : binary64) :
  b64_is_finite a = true -> fsub (F := binary64) a a = S754_zero false.
Proof.
  destruct a as [s| | |s m e]; simpl; try discriminate; intros _.
  - now destruct s.
  - unfold SFsub; cbv zeta; now rewrite Z.sub_diag.
Qed.

Lemma b64_zero_times (s : bool) (g : binary64) :
  b64_is_finite g = true ->
  exists s', fmul (F := binary64) (S754_zero s) g = S754_zero s'.
Proof. destruct g; simpl; try discriminate; eauto. Qed.

Lemma b64_minus_zero (a : binary64) (s : bool) :
  b64_is_finite a = true ->
  SFeqb (fsub (F := binary64) a (S754_zero s)) a = true.
Proof.
  destruct a as [sa| | |sa m e]; simpl; try discriminate; intros _.
  - now destruct sa, s.
  - unfold SFeqb, SFcompare.
    rewrite Z.compare_refl, Pos.compare_cont_refl; now destruct sa.
Qed.

Lemma b64_ge_of_eqb (a t : binary64) : SFeqb t a = true -> fge a t = true.
Proof.
  simpl; unfold SFeqb, SFleb.
  now destruct (SFcompare t a) as [[| |]|].
Qed.

(** X28. The flat case in binary64: when all vertices share one finite Y
    and [1 - face_cutoff] is finite, the Y range is +0, the threshold
    compares equal to that Y, every vertex is Face and none is Body. *)
Lemma binary64_flat_case (face_cutoff f : binary64) (mesh : Mesh binary64) :
  positions mesh <> [] ->
  (forall p, In p (positions mesh) -> y p = f) ->
  b64_is_finite f = true ->
  b64_is_finite (fsub fone face_cutoff) = true ->
  exists r, find_regions face_cutoff mesh = inr r /\
    min_y r = f /\ max_y r = f /\
    y_range (min_y r) (max_y r) = S754_zero false /\
    SFeqb (face_threshold r) f = true /\
    face_verts r = vertex_indices mesh /\ body_verts r = [].
Proof.
  intros Hne Hflat Hf Hg.
  destruct (find_regions_nonempty face_cutoff mesh Hne) as [lo [hi [Hlo [Hhi E]]]].
  assert (Hy : forall q, In q (y_coords mesh) -> q = f).
  { intro q; rewrite y_coords_positions, in_map_iff.
    intros [p [<- Hp]]; now apply Hflat. }
  apply py_min_in, Hy in Hlo; apply py_max_in, Hy in Hhi; subst lo hi.
  assert (Hr : y_range f f = S754_zero false) by (apply b64_sub_self; exact Hf).
  assert (Ht : SFeqb (compute_face_threshold f f face_cutoff) f = true).
  { unfold compute_face_threshold; rewrite Hr.
    destruct (b64_zero_times false _ Hg) as [s' ->].
    now apply b64_minus_zero. }
  assert (Hall : forall v, In v (vertices mesh) ->
                   fge (y (co v)) (compute_face_threshold f f face_cutoff) = true).
  { intros v Hv; apply b64_ge_of_eqb.
    rewrite (Hy (y (co v))); [exact Ht|].
    unfold y_coords; now apply in_map with (f := fun v => y (co v)). }
  eexists; split; [exact E|].
  cbn [min_y max_y face_threshold face_verts body_verts].
  rewrite classify_filters; cbn [fst snd].
  repeat split; auto.
  - now rewrite filter_all.
  - rewrite filter_none; [reflexivity|].
    intros v Hv; now rewrite Hall.
Qed.

Example flat_quad64_all_face :
  exists r, find_regions (b64_dyadic 1 1) flat_quad64 = inr r /\
    face_verts r = [0; 1; 2; 3]%nat /\ body_verts r = [].
Proof.
  eexists; split; [vm_compute; reflexivity|].
  split; reflexivity.
Qed.

Lemma b64_times_zero (a : binary64) (s : bool) :
  b64_is_finite a = true ->
  exists s', fmul (F := binary64) a (S754_zero s) = S754_zero s'.
Proof. destruct a; simpl; try discriminate; eauto. Qed.

(** X29. Cutoff 1.0 in binary64: [1 - 1.0] is +0, so with a finite Y
    range the threshold compares equal to [max_y]. *)
Lemma cutoff_one_binary64 (lo hi : binary64) :
  b64_is_finite (y_range lo hi) = true -> b64_is_finite hi = true ->
  SFeqb (compute_face_threshold lo hi fone) hi = true.
Proof.
  intros Hr Hhi; unfold compute_face_threshold.
  change (fsub (F := binary64) fone fone) with (S754_zero false).
  destruct (b64_times_zero _ false Hr) as [s' ->].
  now apply b64_minus_zero.
Qed.

(** Where the two readings part: [float] also parses "nan", which is not
    a number.  With a NaN cutoff the threshold is NaN, the comparison on
    line 53 is false for every vertex and all of them go to Body. *)
Example cube64_cutoff_nan :
  find_regions b64_nan cube64 =
  inr (mkRegions (b64_of_Z 0) (b64_of_Z 2) b64_nan
         [] [0; 1; 2; 3; 4; 5; 6; 7]%nat).
Proof. vm_compute; reflexivity. Qed.

(** Rounding also shows at extreme extents: for Y in [-3, 2^60] the range
    rounds to 2^60, so at cutoff 0 the threshold is 0 rather than -3 and
    the lower vertex goes to Body. *)
Example tall_edge64_cutoff_zero :
  find_regions (b64_of_Z 0) tall_edge64 =
  inr (mkRegions (b64_of_Z (-3)) (b64_of_Z (2 ^ 60)) (b64_of_Z 0) [1]%nat [0]%nat).
Proof. vm_compute; reflexivity. Qed.

End DecimateSpec.

(* ================================================================== *)
(** * Properties of the Xcode file-registration script *)
(* ================================================================== *)

Module AddFilesSpec.
Import AddFilesToXcode.

Local Open Scope nat_scope.

Section Facts.
Variable SCRIPT_DIR : string.
Variables XcodeProject PBXFileReference : Type.
Variable load : string -> option XcodeProject.
Variable get_files_by_name : XcodeProject -> string -> list PBXFileReference.
Variable add_file :
  FileSystem -> XcodeProject -> string -> string -> Attempt XcodeProject.
Variable save : XcodeProject -> FileSystem -> Attempt FileSystem.

Let step := add_one SCRIPT_DIR XcodeProject PBXFileReference get_files_by_name add_file.
Let run := add_files_to_project SCRIPT_DIR XcodeProject PBXFileReference
             load get_files_by_name add_file save.

(** An iteration on a file that is missing or already registered leaves
    the project object and [added_count] alone. *)
Lemma add_one_skips (fs : FileSystem) (st : LoopState XcodeProject) (f : string) :
  fs (path_join (WATCH_APP_DIR SCRIPT_DIR) f) = None \/
  get_files_by_name (project _ st)
    (path_name (path_join (WATCH_APP_DIR SCRIPT_DIR) f)) <> [] ->
  project _ (step fs st f) = project _ st /\
  added _ (step fs st f) = added _ st.
Proof.
  unfold step, add_one, path_exists; intros [Hmiss|Hreg].
  - rewrite Hmiss; simpl; auto.
  - destruct (fs (path_join (WATCH_APP_DIR SCRIPT_DIR) f)); simpl; auto.
    destruct (get_files_by_name (project _ st)
                (path_name (path_join (WATCH_APP_DIR SCRIPT_DIR) f)));
      [contradiction|simpl; auto].
Qed.

Lemma loop_skips (fs : FileSystem) (files : list string) (st : LoopState XcodeProject) :
  (forall f, In f files ->
     fs (path_join (WATCH_APP_DIR SCRIPT_DIR) f) = None \/
     get_files_by_name (project _ st)
       (path_name (path_join (WATCH_APP_DIR SCRIPT_DIR) f)) <> []) ->
  project _ (fold_left (step fs) files st) = project _ st /\
  added _ (fold_left (step fs) files st) = added _ st.
Proof.
  revert st; induction files as [|f files IH]; intros st H; simpl; [auto|].
  destruct (add_one_skips fs st f (H f (or_introl eq_refl))) as [Hp Ha].
  destruct (IH (step fs st f)) as [Hp' Ha'].
  - intros g Hg; rewrite Hp; apply H; now right.
  - split; congruence.
Qed.

(** X27. Without a project file, or when pbxproj cannot load it, the
    function returns False before the loop, and the disk is untouched. *)
Lemma no_project_returns_false (fs : FileSystem) :
  (fs (PROJECT_PATH SCRIPT_DIR) = None \/
   exists content, fs (PROJECT_PATH SCRIPT_DIR) = Some content /\ load content = None) ->
  returned (run fs) = false /\ saved (run fs) = false /\ disk (run fs) = fs.
Proof.
  unfold run, add_files_to_project.
  intros [H|[content [H1 H2]]]; [rewrite H|rewrite H1, H2]; simpl; auto.
Qed.

(** C10. [project.save()] is called exactly when [added_count > 0], and
    without a save the disk is as it was.  In particular, once the
    project is loaded, if every listed file is missing on disk or already
    in the project, nothing is added, nothing is saved, the disk (the
    project file included) is unchanged and the function returns True. *)
Theorem save_only_when_added (fs : FileSystem) :
  (saved (run fs) = true <-> 0 < added_count (run fs)) /\
  (saved (run fs) = false -> disk (run fs) = fs) /\
  (forall content proj,
     fs (PROJECT_PATH SCRIPT_DIR) = Some content ->
     load content = Some proj ->
     nothing_to_add SCRIPT_DIR fs get_files_by_name proj ->
     added_count (run fs) = 0 /\
     saved (run fs) = false /\
     disk (run fs) = fs /\
     disk (run fs) (PROJECT_PATH SCRIPT_DIR) = Some content /\
     returned (run fs) = true).
Proof.
  unfold run, add_files_to_project; fold step.
  split; [|split].
  - destruct (fs (PROJECT_PATH SCRIPT_DIR)) as [content|]; simpl;
      [|split; [discriminate|lia]].
    destruct (load content) as [proj|]; simpl; [|split; [discriminate|lia]].
    destruct (Nat.ltb 0 _) eqn:E; simpl.
    + apply Nat.ltb_lt in E; tauto.
    + apply Nat.ltb_ge in E; split; [discriminate|lia].
  - destruct (fs (PROJECT_PATH SCRIPT_DIR)) as [content|]; simpl; auto.
    destruct (load content) as [proj|]; simpl; auto.
    destruct (Nat.ltb 0 _); simpl; [discriminate|auto].
  - intros content proj Hfile Hload Hnone.
    rewrite Hfile, Hload.
    destruct (loop_skips fs NEW_FILES (mkLoopState _ proj 0 0) Hnone) as [_ Ha].
    cbv zeta; rewrite Ha; cbn; auto.
Qed.

End Facts.

Lemma registered_disk_nothing_to_add :
  nothing_to_add "/w" disk_resolver_registered toy_get_files_by_name
    ["phoneless-hevy Watch App/Services/ContextResolver.swift"%string].
Proof.
  intros f Hf; unfold NEW_FILES in Hf; simpl in Hf.
  destruct Hf as [<-|[<-|[<-|[<-|[<-|[<-|[<-|[<-|[<-|[]]]]]]]]]];
    try (left; reflexivity).
  right; vm_compute; discriminate.
Defined.

Lemma save_only_when_added_witness :
  added_count (toy_run "/w" disk_resolver_registered) = 0%nat /\
  saved (toy_run "/w" disk_resolver_registered) = false /\
  disk (toy_run "/w" disk_resolver_registered) = disk_resolver_registered /\
  disk (toy_run "/w" disk_resolver_registered) (PROJECT_PATH "/w") =
    Some (toy_dump ["phoneless-hevy Watch App/Services/ContextResolver.swift"%string]) /\
  returned (toy_run "/w" disk_resolver_registered) = true.
Proof.
  destruct (save_only_when_added "/w" toy_project string toy_load
              toy_get_files_by_name toy_add_file (toy_save (PROJECT_PATH "/w"))
              disk_resolver_registered) as [_ [_ H]].
  apply (H _ ["phoneless-hevy Watch App/Services/ContextResolver.swift"%string]).
  - reflexivity.
  - reflexivity.
  - exact registered_disk_nothing_to_add.
Defined.

(** Runs on the sample disks. *)
Example run_on_bare_disk :
  let o := toy_run "/w" bare_disk in
  returned o = true /\ saved o = false /\ added_count o = 0 /\
  disk o (PROJECT_PATH "/w") = Some EmptyString.
Proof. vm_compute; auto. Qed.

Example run_adds_resolver :
  let o := toy_run "/w" disk_with_resolver in
  returned o = true /\ saved o = true /\ added_count o = 1 /\
  disk o (PROJECT_PATH "/w") =
    Some (toy_dump ["phoneless-hevy Watch App/Services/ContextResolver.swift"%string]).
Proof. vm_compute; auto. Qed.

Example run_without_project :
  let o := toy_run "/w" no_project_disk in
  returned o = false /\ saved o = false /\ disk o (PROJECT_PATH "/w") = None.
Proof. vm_compute; auto. Qed.

End AddFilesSpec.

(* ================================================================== *)
(** * Further properties of the decimation script *)
(* ================================================================== *)

Module DecimateMore.
Import Decimate DecimateScript DecimateSpec.

Local Open Scope nat_scope.

(** ** Regions, for any float arithmetic *)

Section AnyFloat.
Context {F : Type} {FF : Float F}.

(** What a successful [find_regions] returned. *)
Lemma find_regions_inv (c : F) (mesh : Mesh F) (r : Regions F) :
  find_regions c mesh = inr r ->
  positions mesh <> [] /\
  py_min (y_coords mesh) = inr (min_y r) /\
  py_max (y_coords mesh) = inr (max_y r) /\
  face_threshold r = compute_face_threshold (min_y r) (max_y r) c /\
  face_verts r = fst (classify (face_threshold r) (vertices mesh)) /\
  body_verts r = snd (classify (face_threshold r) (vertices mesh)).
Proof.
  intro E.
  assert (Hne : positions mesh <> []).
  { intro He; rewrite (find_regions_empty c mesh He) in E; discriminate. }
  destruct (find_regions_nonempty c mesh Hne) as [lo [hi [Hlo [Hhi E']]]].
  rewrite E' in E; injection E as <-; simpl; auto 10.
Qed.

Lemma vertices_length (mesh : Mesh F) :
  List.length (vertices mesh) = List.length (positions mesh).
Proof.
  rewrite <- (length_map index (vertices mesh)).
  fold (vertex_indices mesh); rewrite vertex_indices_seq; apply length_seq.
Qed.

(** X1. The two counts printed on line 61 add up to the number of
    vertices of the mesh. *)
Theorem region_sizes_add_up (c : F) (mesh : Mesh F) (r : Regions F) :
  find_regions c mesh = inr r ->
  List.length (face_verts r) + List.length (body_verts r) =
  List.length (positions mesh).
Proof.
  intro E; destruct (find_regions_inv c mesh r E) as [_ [_ [_ [_ [Hf Hb]]]]].
  rewrite Hf, Hb, classify_filters; simpl.
  rewrite !length_map, filter_length; apply vertices_length.
Qed.

Lemma increasing_from_weaken (a b : nat) (l : list nat) :
  a <= b -> increasing_from b l -> increasing_from a l.
Proof. destruct l as [|i l]; simpl; [auto|]; intros H [H1 H2]; split; [lia|auto]. Qed.

Lemma selected_increasing (keep : MeshVertex F -> bool) (i : nat) (ps : list (Vector F)) :
  increasing_from i (map index (filter keep (vertices_from i ps))).
Proof.
  revert i; induction ps as [|p ps IH]; intro i; simpl; [exact I|].
  destruct (keep (mkMeshVertex i p)); simpl.
  - split; [lia|apply IH].
  - apply increasing_from_weaken with (S i); [lia|apply IH].
Qed.

(** X2. Both regions list their vertex indices in strictly increasing
    order, the order in which the loop visits the vertices. *)
Theorem regions_in_index_order (c : F) (mesh : Mesh F) (r : Regions F) :
  find_regions c mesh = inr r ->
  increasing_from 0 (face_verts r) /\ increasing_from 0 (body_verts r).
Proof.
  intro E; destruct (find_regions_inv c mesh r E) as [_ [_ [_ [_ [Hf Hb]]]]].
  rewrite Hf, Hb, classify_filters; simpl.
  split; apply selected_increasing.
Qed.

(** The classification of two vertex lists agrees when the comparison of
    line 53 agrees position by position. *)
Lemma classify_loop_agree (t1 t2 : F) (ps1 ps2 : list (Vector F)) :
  Forall2 (fun p1 p2 => fge (y p1) t1 = fge (y p2) t2) ps1 ps2 ->
  forall i acc,
    fold_left (classify_step t1) (vertices_from i ps1) acc =
    fold_left (classify_step t2) (vertices_from i ps2) acc.
Proof.
  induction 1 as [|p1 p2 ps1 ps2 Hp _ IH]; intros i acc; simpl; [reflexivity|].
  unfold classify_step at 2 4; simpl; rewrite Hp; apply IH.
Qed.

Lemma classify_agree (t1 t2 : F) (m1 m2 : Mesh F) :
  Forall2 (fun p1 p2 => fge (y p1) t1 = fge (y p2) t2) (positions m1) (positions m2) ->
  classify t1 (vertices m1) = classify t2 (vertices m2).
Proof. intro H; unfold classify, vertices; now apply classify_loop_agree. Qed.

Lemma same_y_agree (t : F) (ps1 ps2 : list (Vector F)) :
  map y ps1 = map y ps2 ->
  Forall2 (fun p1 p2 => fge (y p1) t = fge (y p2) t) ps1 ps2.
Proof.
  revert ps2; induction ps1 as [|p1 ps1 IH]; intros [|p2 ps2] E;
    simpl in E; try discriminate; constructor.
  - injection E as E1 _; now rewrite E1.
  - injection E as _ E2; auto.
Qed.

(** X3. The regions depend on the Y coordinates only: two meshes whose
    vertices have the same Y coordinates, whatever their X, Z and polygons,
    get the same bounds, threshold and regions. *)
Theorem regions_depend_on_y_only (c : F) (m1 m2 : Mesh F) :
  map y (positions m1) = map y (positions m2) ->
  find_regions c m1 = find_regions c m2.
Proof.
  intro E; unfold find_regions.
  change (map (fun v => y (co v)) (vertices m1)) with (y_coords m1).
  change (map (fun v => y (co v)) (vertices m2)) with (y_coords m2).
  rewrite !y_coords_positions, E.
  destruct (py_min (map y (positions m2))) as [e|lo]; simpl; [reflexivity|].
  destruct (py_max (map y (positions m2))) as [e|hi]; simpl; [reflexivity|].
  rewrite (classify_agree _ _ m1 m2 (same_y_agree _ _ _ E)); reflexivity.
Qed.

End AnyFloat.

Lemma region_sizes_add_up_witness :
  exists r, find_regions (1 # 2)%Q cube = inr r /\
    List.length (face_verts r) + List.length (body_verts r) = 8.
Proof.
  eexists; split; [vm_compute; reflexivity|].
  exact (region_sizes_add_up (1 # 2)%Q cube _ eq_refl).
Defined.

Lemma regions_in_index_order_witness :
  exists r, find_regions (1 # 2)%Q cube = inr r /\
    increasing_from 0 (face_verts r) /\ increasing_from 0 (body_verts r).
Proof.
  eexists; split; [vm_compute; reflexivity|].
  exact (regions_in_index_order (1 # 2)%Q cube _ eq_refl).
Defined.

Lemma regions_depend_on_y_only_witness :
  find_regions (1 # 2)%Q cube =
  find_regions (1 # 2)%Q
    (mkMesh (map (fun p => mkVector 0%Q (y p) 0%Q) (positions cube)) []).
Proof.
  apply (regions_depend_on_y_only (1 # 2)%Q cube
           (mkMesh (map (fun p => mkVector 0%Q (y p) 0%Q) (positions cube)) [])).
  reflexivity.
Defined.

(** ** Regions in exact arithmetic *)

Section Exact.
Local Open Scope Q_scope.

Lemma find_regions_inv_exact (c : Q) (mesh : Mesh Q) (r : Regions Q) :
  find_regions c mesh = inr r ->
  is_minimum (min_y r) (y_coords mesh) /\
  is_maximum (max_y r) (y_coords mesh) /\
  min_y r <= max_y r /\
  face_threshold r = max_y r - (max_y r - min_y r) * (1 - c) /\
  face_verts r = fst (classify (face_threshold r) (vertices mesh)) /\
  body_verts r = snd (classify (face_threshold r) (vertices mesh)).
Proof.
  intro E; destruct (find_regions_inv c mesh r E) as [_ [Hlo [Hhi [Ht [Hf Hb]]]]].
  apply py_min_is_minimum in Hlo; apply py_max_is_maximum in Hhi.
  split; [exact Hlo|]. split; [exact Hhi|]. split; [apply Hlo, Hhi|].
  split; [exact Ht|]. split; assumption.
Qed.














(** X8. The Face region is the top portion of the mesh: a vertex at least
    as high as a Face vertex is Face too. *)
Theorem face_is_top_portion (c : Q) (mesh : Mesh Q) (r : Regions Q)
    (v w : MeshVertex Q) :
  find_regions c mesh = inr r ->
  In v (vertices mesh) -> In w (vertices mesh) ->
  in_region (face_verts r) v -> y (co v) <= y (co w) ->
  in_region (face_verts r) w.
Proof.
  intros E Hv Hw Hf Hle.
  destruct (find_regions_inv_exact c mesh r E) as [_ [_ [_ [_ [Ef _]]]]].
  unfold in_region in *; rewrite Ef in *.
  apply (face_membership _ mesh v Hv), fge_le in Hf.
  apply (face_membership _ mesh w Hw), fge_le.
  now apply Qle_trans with (y (co v)).
Qed.

Lemma face_is_top_portion_witness :
  exists r, find_regions (1 # 2) cube = inr r /\
    in_region (face_verts r) (mkMeshVertex 5 (mkVector 1 2 (-1))).
Proof.
  eexists; split; [vm_compute; reflexivity|].
  apply (face_is_top_portion (1 # 2) cube _
           (mkMeshVertex 4 (mkVector (-1) 2 (-1)))
           (mkMeshVertex 5 (mkVector 1 2 (-1)))).
  - reflexivity.
  - simpl; auto 10.
  - simpl; auto 10.
  - unfold in_region; simpl; auto.
  - vm_compute; discriminate.
Defined.










End Exact.

(** ** Regions in IEEE binary64 *)

Section IEEE.

Lemma nan_threshold (lo hi : binary64) :
  compute_face_threshold lo hi b64_nan = S754_nan.
Proof.
  unfold compute_face_threshold.
  change (fsub (F := binary64) fone b64_nan) with S754_nan.
  generalize (y_range lo hi); intro range.
  assert (E : fmul (F := binary64) range S754_nan = S754_nan)
    by (destruct range; reflexivity).
  rewrite E; destruct hi; reflexivity.
Qed.

Lemma nan_never_reached (a : binary64) : fge a S754_nan = false.
Proof. reflexivity. Qed.

Lemma nan_reaches_nothing (t : binary64) : fge S754_nan t = false.
Proof. simpl; unfold SFleb; now destruct t. Qed.

(** X11. A NaN cutoff, which [float] parses from "nan", makes the
    threshold NaN: on every mesh the Face region is empty and every vertex
    is Body. *)
Theorem nan_cutoff_all_body (mesh : Mesh binary64) (r : Regions binary64) :
  find_regions b64_nan mesh = inr r ->
  face_threshold r = S754_nan /\
  face_verts r = [] /\ body_verts r = vertex_indices mesh.
Proof.
  intro E; destruct (find_regions_inv b64_nan mesh r E) as [_ [_ [_ [Ht [Hf Hb]]]]].
  rewrite nan_threshold in Ht.
  split; [exact Ht|].
  rewrite Hf, Hb, Ht, classify_filters; cbn [fst snd]; unfold vertex_indices.
  rewrite filter_none, filter_all; auto.
Qed.

Lemma nan_cutoff_all_body_witness :
  exists r, find_regions b64_nan cube64 = inr r /\
    face_threshold r = S754_nan /\
    face_verts r = [] /\ body_verts r = vertex_indices cube64.
Proof.
  eexists; split; [vm_compute; reflexivity|].
  exact (nan_cutoff_all_body cube64 _ eq_refl).
Defined.

(** X12. A vertex whose Y coordinate is NaN is never Face: whatever the
    cutoff, the comparison on line 53 is false and the vertex is Body. *)
Theorem nan_vertex_is_body (c : binary64) (mesh : Mesh binary64)
    (r : Regions binary64) (v : MeshVertex binary64) :
  find_regions c mesh = inr r ->
  In v (vertices mesh) -> y (co v) = S754_nan ->
  in_region (body_verts r) v /\ ~ in_region (face_verts r) v.
Proof.
  intros E Hv Hy.
  destruct (find_regions_inv c mesh r E) as [_ [_ [_ [_ [Hf Hb]]]]].
  assert (Hc : fge (y (co v)) (face_threshold r) = false)
    by (rewrite Hy; apply nan_reaches_nothing).
  unfold in_region; rewrite Hf, Hb; split.
  - now apply body_membership.
  - intro H; apply (face_membership _ mesh v Hv) in H; congruence.
Qed.

Lemma nan_vertex_is_body_witness :
  exists r, find_regions (b64_dyadic 1 1) nan_triangle64 = inr r /\
    in_region (body_verts r) (mkMeshVertex 1 (mkVector (b64_of_Z 1) b64_nan (b64_of_Z 0))) /\
    ~ in_region (face_verts r)
        (mkMeshVertex 1 (mkVector (b64_of_Z 1) b64_nan (b64_of_Z 0))).
Proof.
  eexists; split; [vm_compute; reflexivity|].
  apply (nan_vertex_is_body (b64_dyadic 1 1) nan_triangle64).
  - reflexivity.
  - simpl; auto.
  - reflexivity.
Defined.

Lemma binary64_flat_case_witness :
  exists r, find_regions (b64_dyadic 1 1) flat_quad64 = inr r /\
    min_y r = b64_dyadic 3 1 /\ max_y r = b64_dyadic 3 1 /\
    y_range (min_y r) (max_y r) = S754_zero false /\
    SFeqb (face_threshold r) (b64_dyadic 3 1) = true /\
    face_verts r = vertex_indices flat_quad64 /\ body_verts r = [].
Proof.
  apply (binary64_flat_case (b64_dyadic 1 1) (b64_dyadic 3 1) flat_quad64).
  - simpl; discriminate.
  - intros p Hp; simpl in Hp.
    repeat (destruct Hp as [<-|Hp]; [reflexivity|]); contradiction.
  - reflexivity.
  - reflexivity.
Defined.

Lemma cutoff_one_binary64_witness :
  SFeqb (compute_face_threshold (b64_of_Z 0) (b64_of_Z 2) fone) (b64_of_Z 2) = true.
Proof.
  apply (cutoff_one_binary64 (b64_of_Z 0) (b64_of_Z 2)); reflexivity.
Defined.

End IEEE.

(** ** Processing the mesh objects *)

Section Processing.
Context {F : Type} {FF : Float F}.
Variable modifier_apply : DecimateModifier F -> Object F -> Object F.
Variables body_ratio face_ratio face_cutoff_y : F.

Let process := process_object modifier_apply body_ratio face_ratio face_cutoff_y.
Let process_list := process_all modifier_apply body_ratio face_ratio face_cutoff_y.

Lemma process_succeeds_iff (obj : Object F) :
  (exists obj', process obj = inr obj') <-> has_vertices_and_faces obj.
Proof.
  unfold process, has_vertices_and_faces.
  destruct (process_object_cases modifier_apply body_ratio face_ratio face_cutoff_y obj)
    as [[He E]|[[Hne [He E]]|[Hne [Hf [r [_ E]]]]]]; rewrite E; split.
  - intros [o H]; discriminate.
  - intros [H _]; contradiction.
  - intros [o H]; discriminate.
  - intros [_ H]; contradiction.
  - auto.
  - eauto.
Qed.





(** X15. The first mesh object that cannot be processed ends the loop with
    its exception, whatever follows it. *)
Theorem first_failure_ends_loop (good : list (Object F)) (bad : Object F)
    (rest : list (Object F)) (e : PyError) :
  Forall has_vertices_and_faces good ->
  process bad = inl e ->
  process_list (good ++ bad :: rest) = inl e.
Proof.
  intros Hgood Hbad; induction good as [|obj good IH]; simpl.
  - unfold process_list, process in *; simpl; now rewrite Hbad.
  - inversion Hgood as [|? ? Hobj Hgood']; subst.
    apply process_succeeds_iff in Hobj; destruct Hobj as [obj' E1].
    unfold process_list, process in *; simpl.
    rewrite E1; simpl; now rewrite (IH Hgood').
Qed.

End Processing.

Lemma first_failure_ends_loop_witness :
  process_all keep_leading (1 # 50)%Q (3 # 20)%Q (1 # 2)%Q
    ([mkObject cube []] ++ mkObject loose_points [] :: [mkObject cube []]) =
  inl ZeroDivisionError.
Proof.
  apply (first_failure_ends_loop keep_leading (1 # 50)%Q (3 # 20)%Q (1 # 2)%Q
           [mkObject cube []] (mkObject loose_points []) [mkObject cube []]).
  - constructor; [split; simpl; discriminate|constructor].
  - reflexivity.
Defined.

(** ** The command line and the whole run *)

Section CommandLine.
Context {F : Type} {FF : Float F}.
Variable float : string -> option F.
Variables default_body_ratio default_face_ratio default_face_cutoff_y : F.
Variable import_gltf : string -> option (list (SceneObject F)).
Variable modifier_apply : DecimateModifier F -> Object F -> Object F.

Let parse := parse_args float default_body_ratio default_face_ratio default_face_cutoff_y.
Let run := run_script float default_body_ratio default_face_ratio default_face_cutoff_y
             import_gltf modifier_apply.

Lemma after_separator_skips (pre rest : list string) :
  ~ In "--"%string pre -> after_separator (pre ++ "--"%string :: rest) = inr rest.
Proof.
  induction pre as [|a pre IH]; simpl; intro H; [reflexivity|].
  destruct (String.eqb_spec a "--"); [exfalso; apply H; now left|].
  apply IH; intro Hin; apply H; now right.
Qed.

Lemma after_separator_inv (argv rest : list string) :
  after_separator argv = inr rest ->
  exists pre, argv = pre ++ "--"%string :: rest /\ ~ In "--"%string pre.
Proof.
  induction argv as [|a argv IH]; simpl; [discriminate|].
  destruct (String.eqb_spec a "--") as [->|Hne].
  - intro E; injection E as <-; exists []; auto.
  - intro E; destruct (IH E) as [pre [-> Hpre]].
    exists (a :: pre); split; [reflexivity|].
    intros [H|H]; [now apply Hne|now apply Hpre].
Qed.

(** X16. Without a "--" on the command line the script stops with the
    ValueError of [argv.index]. *)
Theorem missing_separator (sys_argv : list string) :
  ~ In "--"%string sys_argv -> parse sys_argv = inl (Builtin ValueError).
Proof.
  intro H; unfold parse, parse_args.
  assert (E : after_separator sys_argv = inl (Builtin ValueError)).
  { induction sys_argv as [|a argv IH]; simpl; [reflexivity|].
    destruct (String.eqb_spec a "--"); [exfalso; apply H; now left|].
    apply IH; intro Hin; apply H; now right. }
  now rewrite E.
Qed.

(** X17. Only what follows the first "--" counts: whatever stands before
    it (Blender's own options) has no effect on the settings. *)
Theorem arguments_start_after_separator (pre rest : list string) :
  ~ In "--"%string pre ->
  parse (pre ++ "--"%string :: rest) = parse ("--"%string :: rest).
Proof.
  intro H; unfold parse, parse_args.
  rewrite (after_separator_skips pre rest H); reflexivity.
Qed.

(** X18. With fewer than two arguments after the "--" the script stops
    with IndexError, before anything is imported. *)
Theorem missing_paths (pre rest : list string) :
  ~ In "--"%string pre -> List.length rest < 2 ->
  parse (pre ++ "--"%string :: rest) = inl IndexError /\
  run (pre ++ "--"%string :: rest) = inl IndexError.
Proof.
  intros H Hlen.
  assert (E : parse (pre ++ "--"%string :: rest) = inl IndexError).
  { unfold parse, parse_args; rewrite (after_separator_skips pre rest H).
    destruct rest as [|a [|b rest]]; simpl in *; try reflexivity; lia. }
  split; [exact E|].
  unfold run, run_script; fold parse; now rewrite E.
Qed.

Lemma item_inv (argv : list string) (i : nat) (a : string) :
  item argv i = inr a -> nth_error argv i = Some a.
Proof. unfold item; destruct (nth_error argv i); congruence. Qed.

Lemma float_item_inv (argv : list string) (i : nat) (d v : F) :
  float_item float argv i d = inr v ->
  match nth_error argv i with
  | Some s => float s = Some v
  | None => v = d
  end.
Proof.
  unfold float_item; destruct (nth_error argv i) as [s|]; [|congruence].
  destruct (float s); congruence.
Qed.

(** X19. When the command line is accepted, the input and output paths
    are the first two arguments after the first "--", and each of the three
    settings is the float parsed from the argument at its position or,
    when there is no such argument, its default. *)
Theorem parse_args_sound (sys_argv : list string) (a : Args F) :
  parse sys_argv = inr a ->
  exists pre rest,
    sys_argv = pre ++ "--"%string :: rest /\ ~ In "--"%string pre /\
    nth_error rest 0 = Some (input_file a) /\
    nth_error rest 1 = Some (output_file a) /\
    match nth_error rest 2 with
    | Some s => float s = Some (body_ratio a)
    | None => body_ratio a = default_body_ratio
    end /\
    match nth_error rest 3 with
    | Some s => float s = Some (face_ratio a)
    | None => face_ratio a = default_face_ratio
    end /\
    match nth_error rest 4 with
    | Some s => float s = Some (face_cutoff_y a)
    | None => face_cutoff_y a = default_face_cutoff_y
    end.
Proof.
  unfold parse, parse_args; intro E.
  destruct (after_separator sys_argv) as [e|rest] eqn:Es; [discriminate|].
  destruct (after_separator_inv _ _ Es) as [pre [-> Hpre]].
  exists pre, rest; split; [reflexivity|]. split; [exact Hpre|].
  cbn [and_then] in E.
  destruct (item rest 0) as [e|i] eqn:E0; [discriminate|]; cbn [and_then] in E.
  destruct (item rest 1) as [e|o] eqn:E1; [discriminate|]; cbn [and_then] in E.
  destruct (float_item float rest 2 default_body_ratio) as [e|b] eqn:E2;
    [discriminate|]; cbn [and_then] in E.
  destruct (float_item float rest 3 default_face_ratio) as [e|f] eqn:E3;
    [discriminate|]; cbn [and_then] in E.
  destruct (float_item float rest 4 default_face_cutoff_y) as [e|c] eqn:E4;
    [discriminate|]; cbn [and_then] in E.
  injection E as <-; cbn [input_file output_file body_ratio face_ratio face_cutoff_y].
  split; [now apply item_inv|]. split; [now apply item_inv|].
  split; [now apply float_item_inv|]. split; now apply float_item_inv.
Qed.



Lemma write_back_shape (scene : list (SceneObject F)) :
  forall processed,
    List.length (write_back scene processed) = List.length scene /\
    forall i t,
      nth_error (write_back scene processed) i = Some (OtherObject t) <->
      nth_error scene i = Some (OtherObject t).
Proof.
  induction scene as [|[o|t'] scene IH]; intro processed; simpl.
  - split; [reflexivity|tauto].
  - destruct processed as [|o' more]; destruct (IH (@nil (Object F))) as [L0 N0];
      try destruct (IH more) as [L1 N1]; simpl.
    + split; [now rewrite L0|].
      intros [|i] t; simpl; [split; discriminate|apply N0].
    + split; [now rewrite L1|].
      intros [|i] t; simpl; [split; discriminate|apply N1].
  - destruct (IH processed) as [L N]; split; [now rewrite L|].
    intros [|i] t; simpl; [tauto|apply N].
Qed.

(** X21. What reaches the exporter is written to the output path given on
    the command line; it has as many objects as the imported scene, and its
    objects that are not meshes are those of the import, at the same
    places. *)
Theorem export_keeps_other_objects (sys_argv : list string) (call : ExportCall F) :
  run sys_argv = inr call ->
  exists a scene,
    parse sys_argv = inr a /\
    import_gltf (input_file a) = Some scene /\
    filepath call = output_file a /\
    List.length (exported call) = List.length scene /\
    forall i t,
      nth_error (exported call) i = Some (OtherObject t) <->
      nth_error scene i = Some (OtherObject t).
Proof.
  unfold run, run_script; fold parse; intro E.
  destruct (parse sys_argv) as [e|a] eqn:Ea; simpl in E; [discriminate|].
  destruct (import_gltf (input_file a)) as [scene|] eqn:Ei; simpl in E; [|discriminate].
  destruct (process_all _ _ _ _ (mesh_objects scene)) as [e|out]; simpl in E;
    [discriminate|].
  injection E as <-; exists a, scene; cbn [filepath exported].
  destruct (write_back_shape scene out) as [L N].
  split; [reflexivity|]. split; [exact Ei|]. split; [reflexivity|].
  split; [exact L|exact N].
Qed.

End CommandLine.

Section WholeRun.
Context {F : Type} {FF : Float F}.
Variable float : string -> option F.
Variables default_body_ratio default_face_ratio default_face_cutoff_y : F.
Variable import_gltf : string -> option (list (SceneObject F)).
Variable modifier_apply : DecimateModifier F -> Object F -> Object F.

Hypothesis collapse_at_one :
  forall (m : DecimateModifier F) (obj : Object F),
    decimate_type m = COLLAPSE -> ratio m = fone ->
    face_count (modifier_apply m obj) = face_count obj.

Lemma processed_face_count (c : F) (obj obj' : Object F) :
  process_object modifier_apply fone fone c obj = inr obj' ->
  face_count obj' = face_count obj.
Proof.
  intro E.
  destruct (process_object_cases modifier_apply fone fone c obj)
    as [[_ E']|[[_ [_ E']]|[_ [_ [r [_ E']]]]]]; rewrite E' in E; try discriminate.
  injection E as <-; unfold decimate_passes.
  rewrite collapse_at_one by reflexivity.
  now rewrite collapse_at_one by reflexivity.
Qed.

Lemma processed_face_counts (c : F) (objs out : list (Object F)) :
  process_all modifier_apply fone fone c objs = inr out ->
  map face_count out = map face_count objs /\ List.length out = List.length objs.
Proof.
  revert out; induction objs as [|obj rest IH]; intros out E.
  - injection E as <-; auto.
  - simpl in E.
    destruct (process_object modifier_apply fone fone c obj) as [e|obj'] eqn:E1;
      simpl in E; [discriminate|].
    destruct (process_all modifier_apply fone fone c rest) as [e|rest'] eqn:E2;
      simpl in E; [discriminate|].
    injection E as <-; destruct (IH rest' eq_refl) as [Hm Hl]; simpl.
    now rewrite (processed_face_count c obj obj' E1), Hm, Hl.
Qed.

Lemma mesh_objects_write_back (scene : list (SceneObject F)) :
  forall out, List.length out = List.length (mesh_objects scene) ->
              mesh_objects (write_back scene out) = out.
Proof.
  induction scene as [|[o|t] scene IH]; intros out H; simpl in *.
  - now destruct out.
  - destruct out as [|o' more]; [discriminate|].
    simpl; f_equal; apply IH; now injection H.
  - now apply IH.
Qed.

(** X22. With both ratios given as 1.0, and Blender keeping every face
    at ratio 1.0, the scene that reaches the exporter has, mesh by mesh, the
    face counts of the imported scene. *)
Theorem identity_ratios_whole_scene (sys_argv : list string) (a : Args F)
    (scene : list (SceneObject F)) (call : ExportCall F) :
  parse_args float default_body_ratio default_face_ratio default_face_cutoff_y
    sys_argv = inr a ->
  body_ratio a = fone -> face_ratio a = fone ->
  import_gltf (input_file a) = Some scene ->
  run_script float default_body_ratio default_face_ratio default_face_cutoff_y
    import_gltf modifier_apply sys_argv = inr call ->
  map face_count (mesh_objects (exported call)) =
  map face_count (mesh_objects scene).
Proof.
  intros Ea Hb Hf Ei E; unfold run_script in E.
  rewrite Ea in E; simpl in E; rewrite Ei, Hb, Hf in E; simpl in E.
  destruct (process_all modifier_apply fone fone (face_cutoff_y a) (mesh_objects scene))
    as [e|out] eqn:Ep; simpl in E; [discriminate|].
  injection E as <-; cbn [exported].
  destruct (processed_face_counts _ _ _ Ep) as [Hm Hl].
  now rewrite mesh_objects_write_back.
Qed.

End WholeRun.

(** Sample command lines. *)

Lemma missing_separator_witness :
  parse_args toy_float (1 # 50)%Q (3 # 20)%Q (1 # 2)%Q
    ["blender"; "-b"; "in.glb"; "out.glb"]%string = inl (Builtin ValueError).
Proof.
  apply (missing_separator toy_float (1 # 50)%Q (3 # 20)%Q (1 # 2)%Q).
  intros [H|[H|[H|[H|[]]]]]; discriminate.
Defined.

Lemma arguments_start_after_separator_witness :
  parse_args toy_float (1 # 50)%Q (3 # 20)%Q (1 # 2)%Q
    (["blender"; "-b"; "-P"; "decimate.py"]%string ++
     "--"%string :: ["in.glb"; "out.glb"; "0.5"]%string)%list =
  parse_args toy_float (1 # 50)%Q (3 # 20)%Q (1 # 2)%Q
    ("--" :: ["in.glb"; "out.glb"; "0.5"])%string.
Proof.
  apply (arguments_start_after_separator toy_float (1 # 50)%Q (3 # 20)%Q (1 # 2)%Q).
  intros [H|[H|[H|[H|[]]]]]; discriminate.
Defined.

Lemma missing_paths_witness :
  parse_args toy_float (1 # 50)%Q (3 # 20)%Q (1 # 2)%Q
    (["blender"]%string ++ "--"%string :: ["in.glb"]%string)%list = inl IndexError /\
  toy_script (["blender"]%string ++ "--"%string :: ["in.glb"]%string)%list = inl IndexError.
Proof.
  apply (missing_paths toy_float (1 # 50)%Q (3 # 20)%Q (1 # 2)%Q toy_import keep_leading).
  - intros [H|[]]; discriminate.
  - simpl; lia.
Defined.

Lemma parse_args_sound_witness :
  exists pre rest,
    ["blender"; "--"; "in.glb"; "out.glb"; "0.5"]%string = pre ++ "--"%string :: rest /\
    ~ In "--"%string pre /\
    nth_error rest 0 = Some "in.glb"%string /\
    nth_error rest 1 = Some "out.glb"%string /\
    match nth_error rest 2 with
    | Some s => toy_float s = Some (5 # 10)%Q
    | None => (5 # 10)%Q = (1 # 50)%Q
    end /\
    match nth_error rest 3 with
    | Some s => toy_float s = Some (3 # 20)%Q
    | None => (3 # 20)%Q = (3 # 20)%Q
    end /\
    match nth_error rest 4 with
    | Some s => toy_float s = Some (1 # 2)%Q
    | None => (1 # 2)%Q = (1 # 2)%Q
    end.
Proof.
  exact (parse_args_sound toy_float (1 # 50)%Q (3 # 20)%Q (1 # 2)%Q
           ["blender"; "--"; "in.glb"; "out.glb"; "0.5"]%string
           (mkArgs "in.glb" "out.glb" (5 # 10)%Q (3 # 20)%Q (1 # 2)%Q) eq_refl).
Defined.


Lemma export_keeps_other_objects_witness :
  exists call,
    toy_script ["blender"; "--"; "in.glb"; "out.glb"; "1"; "1"]%string = inr call /\
    filepath call = "out.glb"%string /\
    List.length (exported call) = 3 /\
    nth_error (exported call) 0 = Some (OtherObject CAMERA) /\
    nth_error (exported call) 2 = Some (OtherObject LIGHT).
Proof.
  destruct (toy_script ["blender"; "--"; "in.glb"; "out.glb"; "1"; "1"]%string)
    as [e|call] eqn:E; [vm_compute in E; discriminate|].
  exists call; split; [reflexivity|].
  destruct (export_keeps_other_objects toy_float (1 # 50)%Q (3 # 20)%Q (1 # 2)%Q
              toy_import keep_leading _ call E) as [a [scene [Ea [Ei [Hp [Hl Hn]]]]]].
  vm_compute in Ea; injection Ea as <-.
  vm_compute in Ei; injection Ei as <-.
  split; [exact Hp|]. split; [exact Hl|].
  split; apply Hn; reflexivity.
Defined.

Lemma identity_ratios_whole_scene_witness :
  exists call,
    toy_script ["blender"; "--"; "in.glb"; "out.glb"; "1"; "1"]%string = inr call /\
    map face_count (mesh_objects (exported call)) = [6].
Proof.
  destruct (toy_script ["blender"; "--"; "in.glb"; "out.glb"; "1"; "1"]%string)
    as [e|call] eqn:E; [vm_compute in E; discriminate|].
  exists call; split; [reflexivity|].
  apply (identity_ratios_whole_scene toy_float (1 # 50)%Q (3 # 20)%Q (1 # 2)%Q
           toy_import keep_leading keep_leading_at_one
           ["blender"; "--"; "in.glb"; "out.glb"; "1"; "1"]%string
           (mkArgs "in.glb" "out.glb" 1%Q 1%Q (1 # 2)%Q)
           [OtherObject CAMERA; MeshObject (mkObject cube []); OtherObject LIGHT]
           call); try reflexivity.
  exact E.
Defined.

End DecimateMore.

(* ================================================================== *)
(** * Further properties of the Xcode script *)
(* ================================================================== *)

Module XcodeMore.
Import AddFilesToXcode XcodeMain AddFilesSpec.

Local Open Scope nat_scope.

Section Facts.
Variable SCRIPT_DIR : string.
Variables XcodeProject PBXFileReference : Type.
Variable load : string -> option XcodeProject.
Variable get_files_by_name : XcodeProject -> string -> list PBXFileReference.
Variable add_file :
  FileSystem -> XcodeProject -> string -> string -> Attempt XcodeProject.
Variable save : XcodeProject -> FileSystem -> Attempt FileSystem.
Variable xcodebuild : FileSystem -> RunResult.

Let step := add_one SCRIPT_DIR XcodeProject PBXFileReference get_files_by_name add_file.
Let run := add_files_to_project SCRIPT_DIR XcodeProject PBXFileReference
             load get_files_by_name add_file save.
Let present (fs : FileSystem) (files : list string) : nat :=
  List.length (filter (fun f => path_exists fs (path_join (WATCH_APP_DIR SCRIPT_DIR) f)) files).

(** Each iteration counts at most one file, and only a file that is on
    the disk. *)
Lemma add_one_counts (fs : FileSystem) (st : LoopState XcodeProject) (f : string) :
  added _ (step fs st f) + skipped _ (step fs st f) <=
  added _ st + skipped _ st + present fs [f] /\
  ((forall p path t, ok (add_file fs p path t) = true) ->
   added _ (step fs st f) + skipped _ (step fs st f) =
   added _ st + skipped _ st + present fs [f]).
Proof.
  unfold step, add_one, present; simpl.
  destruct (path_exists fs (path_join (WATCH_APP_DIR SCRIPT_DIR) f)); simpl.
  - destruct (get_files_by_name (project _ st) _); simpl.
    + split.
      * destruct (ok (add_file fs (project _ st) _ TARGET_NAME)); simpl; lia.
      * intro H; rewrite H; simpl; lia.
    + split; intros; lia.
  - split; intros; lia.
Qed.

Lemma loop_counts (fs : FileSystem) (files : list string) (st : LoopState XcodeProject) :
  added _ (fold_left (step fs) files st) + skipped _ (fold_left (step fs) files st) <=
  added _ st + skipped _ st + present fs files /\
  ((forall p path t, ok (add_file fs p path t) = true) ->
   added _ (fold_left (step fs) files st) + skipped _ (fold_left (step fs) files st) =
   added _ st + skipped _ st + present fs files).
Proof.
  revert st; induction files as [|f files IH]; intro st; simpl.
  - unfold present; simpl; split; intros; lia.
  - destruct (IH (step fs st f)) as [H1 H2].
    destruct (add_one_counts fs st f) as [H3 H4].
    assert (Hp : present fs (f :: files) = present fs [f] + present fs files).
    { unfold present; simpl.
      destruct (path_exists fs (path_join (WATCH_APP_DIR SCRIPT_DIR) f)); simpl; lia. }
    split; [lia|].
    intro H; specialize (H2 H); specialize (H4 H); lia.
Qed.

(** X23. The two counters never count more than the listed files found on
    the disk; when the project loads and pbxproj never refuses a file,
    every file found is counted once, as added or as skipped. *)
Theorem counts_bounded (fs : FileSystem) :
  added_count (run fs) + skipped_count (run fs) <= present_count SCRIPT_DIR fs /\
  (forall content proj,
     fs (PROJECT_PATH SCRIPT_DIR) = Some content -> load content = Some proj ->
     (forall p path t, ok (add_file fs p path t) = true) ->
     added_count (run fs) + skipped_count (run fs) = present_count SCRIPT_DIR fs).
Proof.
  unfold run, add_files_to_project, present_count; fold step.
  split.
  - destruct (fs (PROJECT_PATH SCRIPT_DIR)) as [content|]; [|simpl; lia].
    destruct (load content) as [proj|]; [|simpl; lia].
    destruct (loop_counts fs NEW_FILES (mkLoopState _ proj 0 0)) as [H _].
    cbv zeta; destruct (Nat.ltb 0 _); cbn [added_count skipped_count];
      unfold present in H; cbn [added skipped] in H; lia.
  - intros content proj Hfile Hload Hok; rewrite Hfile, Hload.
    destruct (loop_counts fs NEW_FILES (mkLoopState _ proj 0 0)) as [_ H].
    specialize (H Hok).
    cbv zeta; destruct (Nat.ltb 0 _); cbn [added_count skipped_count];
      unfold present in H; cbn [added skipped] in H; lia.
Qed.

Lemma loop_all_refused (fs : FileSystem) (files : list string) (st : LoopState XcodeProject) :
  (forall p path t, ok (add_file fs p path t) = false) ->
  added _ (fold_left (step fs) files st) = added _ st.
Proof.
  intro H; revert st; induction files as [|f files IH]; intro st; simpl; [reflexivity|].
  rewrite IH; unfold step, add_one.
  destruct (negb _); [reflexivity|].
  destruct (get_files_by_name _ _); [|reflexivity].
  now rewrite H.
Qed.

(** X24. An exception of [add_file] is swallowed: when pbxproj refuses
    every file, the function still returns True, without saving and
    without touching the disk. *)
Theorem add_failures_are_swallowed (fs : FileSystem) (content : string)
    (proj : XcodeProject) :
  (forall p path t, ok (add_file fs p path t) = false) ->
  fs (PROJECT_PATH SCRIPT_DIR) = Some content -> load content = Some proj ->
  returned (run fs) = true /\ saved (run fs) = false /\
  added_count (run fs) = 0 /\ disk (run fs) = fs.
Proof.
  intros Hno Hfile Hload.
  unfold run, add_files_to_project; fold step; rewrite Hfile, Hload.
  cbv zeta; rewrite (loop_all_refused fs NEW_FILES _ Hno); cbn; auto.
Qed.


(** X26. [main] starts xcodebuild only after a registration that returned
    True; it returns normally exactly when, in addition, the build ends
    with return code 0, and otherwise exits with status 1. *)
Theorem main_exit_status (fs : FileSystem) :
  let m := main SCRIPT_DIR XcodeProject PBXFileReference load get_files_by_name
             add_file save xcodebuild fs in
  registration m = run fs /\
  build_ran m = returned (run fs) /\
  (exit m = Returns <->
   returned (run fs) = true /\
   exists out err, xcodebuild (disk (run fs)) = Completed 0 out err) /\
  (exit m <> Returns -> exit m = SysExit 1).
Proof.
  unfold main, verify_build; fold run; cbv zeta.
  destruct (returned (run fs)); simpl.
  - destruct (xcodebuild (disk (run fs))) as [rc out err| |]; simpl.
    + destruct (Z.eqb_spec rc 0) as [->|Hrc]; simpl.
      * repeat split; eauto; intro H; congruence.
      * repeat split; auto; try discriminate.
        intros [_ [o [e E]]]; congruence.
    + repeat split; auto; try discriminate.
      intros [_ [o [e E]]]; discriminate.
    + repeat split; auto; try discriminate.
      intros [_ [o [e E]]]; discriminate.
  - repeat split; auto; try discriminate.
    intros [H _]; discriminate.
Qed.

End Facts.

Lemma counts_bounded_witness :
  added_count (toy_run "/w" disk_with_resolver) +
  skipped_count (toy_run "/w" disk_with_resolver) =
  present_count "/w" disk_with_resolver.
Proof.
  destruct (counts_bounded "/w" toy_project string toy_load toy_get_files_by_name
              toy_add_file (toy_save (PROJECT_PATH "/w")) disk_with_resolver)
    as [_ H].
  apply (H EmptyString []); reflexivity.
Defined.

Lemma add_failures_are_swallowed_witness :
  let o := add_files_to_project "/w" toy_project string toy_load
             toy_get_files_by_name failing_add_file (toy_save (PROJECT_PATH "/w"))
             disk_with_resolver in
  returned o = true /\ saved o = false /\ added_count o = 0 /\
  disk o = disk_with_resolver.
Proof.
  apply (add_failures_are_swallowed "/w" toy_project string toy_load
           toy_get_files_by_name failing_add_file (toy_save (PROJECT_PATH "/w"))
           disk_with_resolver EmptyString []); reflexivity.
Defined.


Lemma no_project_returns_false_witness :
  returned (toy_run "/w" no_project_disk) = false /\
  saved (toy_run "/w" no_project_disk) = false /\
  disk (toy_run "/w" no_project_disk) = no_project_disk.
Proof.
  apply (no_project_returns_false "/w" toy_project string toy_load
           toy_get_files_by_name toy_add_file (toy_save (PROJECT_PATH "/w"))
           no_project_disk).
  left; reflexivity.
Defined.

End XcodeMore.
